(** * vtkHyperTreeGridEntry: the base cursor entry of a hyper tree grid

    A shallow embedding of [Common/DataModel/vtkHyperTreeGridEntry.h].
    The entry caches one integer, the index of the current cell inside one
    hyper tree.  The member functions written in the header (constructors,
    [Initialize(index)], [Copy], [GetVertexId], [IsRoot]) are embedded from
    their bodies.  The member functions that the header only declares
    delegate to [vtkHyperTree] and [vtkHyperTreeGrid]; these two classes and
    the bodies of the delegating members are modelled further down. *)

From stdpp Require Import base option list gmap.

Local Open Scope Z_scope.
#[local] Set Warnings "-clear-no-such-hyp".

(** ** Data *)

(** [vtkIdType] is VTK's signed integer type for ids.  No member of the
    entry does arithmetic on it, so it is embedded as [Z]. *)
Abbreviation vtkIdType := Z (only parsing).

(** The class has a single protected field: [vtkIdType Index]. *)
Record vtkHyperTreeGridEntry : Type := mkEntry { Index : vtkIdType }.

#[global] Instance vtkHyperTreeGridEntry_eq_dec : EqDecision vtkHyperTreeGridEntry.
Proof. solve_decision. Defined.

(** ** Members defined in the header *)

(** [vtkHyperTreeGridEntry() { this->Index = 0; }] *)
Definition vtkHyperTreeGridEntry_default : vtkHyperTreeGridEntry :=
  {| Index := 0 |}.

(** [vtkHyperTreeGridEntry( vtkIdType index ) { this->Index = index; }] *)
Definition vtkHyperTreeGridEntry_index (index : vtkIdType) : vtkHyperTreeGridEntry :=
  {| Index := index |}.

(** [void Initialize( vtkIdType index ) { this->Index = index; }] *)
Definition InitializeIndex (index : vtkIdType) (this : vtkHyperTreeGridEntry)
  : vtkHyperTreeGridEntry :=
  {| Index := index |}.

(** [void Copy( const vtkHyperTreeGridEntry* entry ) { this->Index = entry->Index; }]
    Here [entry] is the value the argument points to. *)
Definition Copy (entry : vtkHyperTreeGridEntry) (this : vtkHyperTreeGridEntry)
  : vtkHyperTreeGridEntry :=
  {| Index := Index entry |}.

(** [vtkIdType GetVertexId() const { return this->Index; }] *)
Definition GetVertexId (this : vtkHyperTreeGridEntry) : vtkIdType :=
  Index this.

(** [bool IsRoot() const { return ( this->Index == 0 ); }] *)
Definition IsRoot (this : vtkHyperTreeGridEntry) : bool :=
  Index this =? 0.

(** ** Entries as objects

    [Copy] receives a pointer, and nothing stops a caller from passing the
    address of the receiver itself.  Entries therefore also live in a store
    indexed by address, and a member call is a computation on that store
    that fails on a dangling address. *)
Abbreviation EntryAddr := nat (only parsing).
Abbreviation EntryStore := (gmap nat vtkHyperTreeGridEntry).

Definition Call (A : Type) : Type := EntryStore → option (A * EntryStore).

Definition ret {A} (a : A) : Call A := λ s, Some (a, s).

Definition bind {A B} (m : Call A) (k : A → Call B) : Call B :=
  λ s, match m s with
       | Some (a, s') => k a s'
       | None => None
       end.

Notation "x ←← m ;; k" := (bind m (λ x, k))
  (at level 100, m at next level, right associativity).

(** Reading [*p] and writing [*p = e]. *)
Definition deref (p : EntryAddr) : Call vtkHyperTreeGridEntry :=
  λ s, match s !! p with
       | Some e => Some (e, s)
       | None => None
       end.

Definition assign (p : EntryAddr) (e : vtkHyperTreeGridEntry) : Call unit :=
  λ s, match s !! p with
       | Some _ => Some (tt, <[p := e]> s)
       | None => None
       end.

(** A [const] member reads the receiver; the other members write it back. *)
Definition const_member {A} (f : vtkHyperTreeGridEntry → A) (this : EntryAddr)
  : Call A :=
  e ←← deref this ;; ret (f e).

Definition member (f : vtkHyperTreeGridEntry → vtkHyperTreeGridEntry)
  (this : EntryAddr) : Call unit :=
  e ←← deref this ;; assign this (f e).

(** [this->Initialize(index)] *)
Definition call_InitializeIndex (this : EntryAddr) (index : vtkIdType) : Call unit :=
  member (InitializeIndex index) this.

(** [this->Copy(entry)]: the argument is dereferenced, then the receiver is
    written. *)
Definition call_Copy (this entry : EntryAddr) : Call unit :=
  src ←← deref entry ;; member (Copy src) this.

(** [this->GetVertexId()] *)
Definition call_GetVertexId (this : EntryAddr) : Call vtkIdType :=
  const_member GetVertexId this.

(** [this->IsRoot()] *)
Definition call_IsRoot (this : EntryAddr) : Call bool :=
  const_member IsRoot this.

(** ** The hyper tree (external collaborator)

    [vtkHyperTree] is only forward-declared in the header. *)

(** Modelled from the spec: the per-cell state of [vtkHyperTree], which the
    spec describes as "per-cell state and children pointers/offsets": a cell
    is a leaf, or it is coarse and records where its children start. *)
Inductive CellState : Type :=
  | LeafCell
  | CoarseCell (elder : nat).

#[global] Instance CellState_eq_dec : EqDecision CellState.
Proof. solve_decision. Defined.

(** Modelled from the spec: the leaf/coarse flag of a cell ("a cell is a
    leaf or coarse, never both"). *)
Definition is_leaf (c : CellState) : bool :=
  match c with
  | LeafCell => true
  | CoarseCell _ => false
  end.

(** Modelled from the spec: the numbering policy of a tree, "the tree's own
    bookkeeping" that gives a global index to a child created by a
    subdivision.  The spec leaves the policy open ("a pluggable external
    contract"), so a tree carries it as a function of the current mapping
    table, the level passed to the subdivision and the child's position. *)
Abbreviation NumberingPolicy := (gmap nat Z → nat → nat → Z) (only parsing).

(** Modelled from the spec: the class [vtkHyperTree], missing from the
    sources.  A tree has a fixed branching factor, a linear array of cells
    addressed by local index with the root at index 0, and a mapping table
    from local index to global index. *)
Record vtkHyperTree : Type := mkTree {
  BranchingFactor : nat;
  Cells : list CellState;
  GlobalIndexTable : gmap nat Z;
  Numbering : gmap nat Z → nat → nat → Z
}.

(** Modelled from the spec: the number of cells the tree has allocated. *)
Definition NumberOfCells (t : vtkHyperTree) : nat := length (Cells t).

(** Modelled from the spec: the tree's linear addressing.  A local index is
    valid for the tree when it is the position of one of its cells. *)
Definition CellPos (t : vtkHyperTree) (i : vtkIdType) : option nat :=
  if bool_decide (0 ≤ i < Z.of_nat (NumberOfCells t)) then Some (Z.to_nat i) else None.

(** Modelled from the spec: the state of the cell at a local index. *)
Definition CellAt (t : vtkHyperTree) (i : vtkIdType) : option CellState :=
  pos ← CellPos t i; Cells t !! pos.

(** Modelled from the spec: [IsLeafAt(localIndex)], the tree's
    per-local-index leaf/coarse flag; absent for an index outside the tree. *)
Definition IsLeafAt (t : vtkHyperTree) (i : vtkIdType) : option bool :=
  is_leaf <$> CellAt t i.

(** Modelled from the spec: [ChildLocalIndex(localIndex, ichild)], the local
    index of a child of a coarse cell according to the tree's layout. *)
Definition ChildLocalIndex (t : vtkHyperTree) (i : vtkIdType) (ichild : nat)
  : option vtkIdType :=
  match CellAt t i with
  | Some (CoarseCell elder) => Some (Z.of_nat (elder + ichild))
  | _ => None
  end.

(** Modelled from the spec: [GetGlobalIndex(localIndex)], the lookup in the
    tree's mapping table; it fails when the index is invalid for the tree. *)
Definition GetGlobalIndex (t : vtkHyperTree) (i : vtkIdType) : option vtkIdType :=
  pos ← CellPos t i; GlobalIndexTable t !! pos.

(** Modelled from the spec: [SetGlobalIndex(localIndex, value)]. *)
Definition SetGlobalIndex (t : vtkHyperTree) (i : vtkIdType) (value : vtkIdType)
  : option vtkHyperTree :=
  pos ← CellPos t i;
  Some {| BranchingFactor := BranchingFactor t;
          Cells := Cells t;
          GlobalIndexTable := <[pos := value]> (GlobalIndexTable t);
          Numbering := Numbering t |}.

(** Modelled from the spec: the registration of new children by the tree's
    bookkeeping.  The result is the table after the policy has numbered the
    [count] cells at positions [first], [first + 1], ... *)
Fixpoint RegisterChildren (policy : NumberingPolicy) (seed : gmap nat Z)
  (level : nat) (first count : nat) (table : gmap nat Z) : gmap nat Z :=
  match count with
  | O => table
  | S count' =>
      <[first := policy seed level first]>
        (RegisterChildren policy seed level (S first) count' table)
  end.

(** Modelled from the spec: [Subdivide(localIndex, level)].  The cell must be
    a leaf; it becomes coarse, branching-factor leaves are allocated for it,
    and the tree's bookkeeping registers their global indices. *)
Definition Subdivide (t : vtkHyperTree) (i : vtkIdType) (level : nat)
  : option vtkHyperTree :=
  pos ← CellPos t i;
  match Cells t !! pos with
  | Some LeafCell =>
      let first := NumberOfCells t in
      Some {| BranchingFactor := BranchingFactor t;
              Cells := <[pos := CoarseCell first]> (Cells t)
                         ++ replicate (BranchingFactor t) LeafCell;
              GlobalIndexTable :=
                RegisterChildren (Numbering t) (GlobalIndexTable t) level
                  first (BranchingFactor t) (GlobalIndexTable t);
              Numbering := Numbering t |}
  | _ => None
  end.

(** Modelled from the spec: a tree as the grid creates it on demand: a
    single leaf, the root at local index 0, and an empty table. *)
Definition NewTree (factor : nat) (policy : NumberingPolicy) : vtkHyperTree :=
  {| BranchingFactor := factor;
     Cells := [LeafCell];
     GlobalIndexTable := ∅;
     Numbering := policy |}.

(** Modelled from the spec: the contiguous numbering, one of the policies
    the spec names ("contiguous-or-mapped"): a child takes the root's global
    index plus its own position. *)
Definition ContiguousNumbering : NumberingPolicy :=
  λ table _ pos, default 0 (table !! 0%nat) + Z.of_nat pos.

(** ** The hyper tree grid (external collaborator)

    [vtkHyperTreeGrid] is only forward-declared in the header. *)

(** Modelled from the spec: the class [vtkHyperTreeGrid], missing from the
    sources: a sparse array of trees addressed by tree position, with a valid
    range of positions, which creates a tree on demand. *)
Record vtkHyperTreeGrid : Type := mkGrid {
  MaxNumberOfTrees : Z;
  GridBranchingFactor : nat;
  GridNumbering : gmap nat Z → nat → nat → Z;
  HyperTrees : gmap Z vtkHyperTree
}.

(** Modelled from the spec: the grid's valid range of tree indices. *)
Definition ValidTreeIndex (grid : vtkHyperTreeGrid) (treeIndex : vtkIdType) : Prop :=
  0 ≤ treeIndex < MaxNumberOfTrees grid.

(** Modelled from the spec: [GetTree(treeIndex, create)], which answers the
    tree handle or its absence.  The answer is absent when the index is out
    of the valid range, or when the addressed tree is unallocated and
    [create] is false; an unallocated tree is created when [create] is true. *)
Definition GetTree (grid : vtkHyperTreeGrid) (treeIndex : vtkIdType) (create : bool)
  : option vtkHyperTree * vtkHyperTreeGrid :=
  if bool_decide (ValidTreeIndex grid treeIndex) then
    match HyperTrees grid !! treeIndex with
    | Some tree => (Some tree, grid)
    | None =>
        if create then
          let tree := NewTree (GridBranchingFactor grid) (GridNumbering grid) in
          (Some tree,
           {| MaxNumberOfTrees := MaxNumberOfTrees grid;
              GridBranchingFactor := GridBranchingFactor grid;
              GridNumbering := GridNumbering grid;
              HyperTrees := <[treeIndex := tree]> (HyperTrees grid) |})
        else (None, grid)
    end
  else (None, grid).

(** ** Members declared in the header, defined out of line

    The definitions of these members are not in the header.  Each takes the
    tree (or the grid) from its caller and delegates to it at the cached
    index.  [None] stands for a call outside its domain: an index that is
    not a cell of the tree, or a violated precondition. *)

(** Modelled from the spec: [Initialize(grid, treeIndex, create)], which
    resets the index to the root and returns what the grid resolves. *)
Definition Initialize (grid : vtkHyperTreeGrid) (treeIndex : vtkIdType)
  (create : bool) (this : vtkHyperTreeGridEntry)
  : option vtkHyperTree * vtkHyperTreeGridEntry * vtkHyperTreeGrid :=
  let '(tree, grid') := GetTree grid treeIndex create in
  (tree, {| Index := 0 |}, grid').

(** Modelled from the spec: [GetGlobalNodeIndex(tree)]. *)
Definition GetGlobalNodeIndex (tree : vtkHyperTree) (this : vtkHyperTreeGridEntry)
  : option vtkIdType :=
  GetGlobalIndex tree (Index this).

(** Modelled from the spec: [SetGlobalIndexStart(tree, index)], which assigns
    the global index of the root cell, whatever cell the entry is on. *)
Definition SetGlobalIndexStart (tree : vtkHyperTree) (index : vtkIdType)
  (this : vtkHyperTreeGridEntry) : option vtkHyperTree :=
  SetGlobalIndex tree 0 index.

(** Modelled from the spec: [SetGlobalIndexFromLocal(tree, index)], which
    assigns the global index of the current cell. *)
Definition SetGlobalIndexFromLocal (tree : vtkHyperTree) (index : vtkIdType)
  (this : vtkHyperTreeGridEntry) : option vtkHyperTree :=
  SetGlobalIndex tree (Index this) index.

(** Modelled from the spec: [IsLeaf(tree)]. *)
Definition IsLeaf (tree : vtkHyperTree) (this : vtkHyperTreeGridEntry) : option bool :=
  IsLeafAt tree (Index this).

(** Modelled from the spec: [SubdivideLeaf(tree, level)].  As the header
    says, "if leaf then becomes coarse and all its children are created";
    a coarse cell is left as it is. *)
Definition SubdivideLeaf (tree : vtkHyperTree) (level : nat)
  (this : vtkHyperTreeGridEntry) : option vtkHyperTree :=
  leaf ← IsLeaf tree this;
  if leaf : bool then Subdivide tree (Index this) level else Some tree.

(** Modelled from the spec: [ToChild(tree, ichild)], with its two
    preconditions checked.  [ichild] is an [unsigned char]. *)
Definition ToChild (tree : vtkHyperTree) (ichild : nat)
  (this : vtkHyperTreeGridEntry) : option vtkHyperTreeGridEntry :=
  leaf ← IsLeaf tree this;
  if leaf : bool then None
  else if bool_decide (ichild < BranchingFactor tree)%nat then
    index ← ChildLocalIndex tree (Index this) ichild;
    Some {| Index := index |}
  else None.

(** Modelled from the spec: the leaf flags of the direct children of the
    current cell, in child order. *)
Definition ChildrenLeafFlags (tree : vtkHyperTree) (this : vtkHyperTreeGridEntry)
  : option (list bool) :=
  mapM (λ ichild, child ← ChildLocalIndex tree (Index this) ichild;
                  IsLeafAt tree child)
       (seq 0 (BranchingFactor tree)).

(** Modelled from the spec: [IsTerminalNode(tree)]: coarse and all children
    are leaves. *)
Definition IsTerminalNode (tree : vtkHyperTree) (this : vtkHyperTreeGridEntry)
  : option bool :=
  leaf ← IsLeaf tree this;
  if leaf : bool then Some false
  else flags ← ChildrenLeafFlags tree this; Some (forallb id flags).

(** ** Sequences of member calls on one entry and one tree *)

Inductive EntryOp : Type :=
  | OpInitializeIndex (index : vtkIdType)
  | OpCopy (entry : vtkHyperTreeGridEntry)
  | OpGetVertexId
  | OpIsRoot
  | OpGetGlobalNodeIndex
  | OpIsLeaf
  | OpIsTerminalNode
  | OpSetGlobalIndexStart (index : vtkIdType)
  | OpSetGlobalIndexFromLocal (index : vtkIdType)
  | OpSubdivideLeaf (level : nat)
  | OpToChild (ichild : nat).

Abbreviation CursorState := (vtkHyperTreeGridEntry * vtkHyperTree)%type.

Definition run_op (op : EntryOp) (s : CursorState) : option CursorState :=
  let '(this, tree) := s in
  match op with
  | OpInitializeIndex index => Some (InitializeIndex index this, tree)
  | OpCopy entry => Some (Copy entry this, tree)
  | OpGetVertexId => Some s
  | OpIsRoot => Some s
  | OpGetGlobalNodeIndex => _ ← GetGlobalNodeIndex tree this; Some s
  | OpIsLeaf => _ ← IsLeaf tree this; Some s
  | OpIsTerminalNode => _ ← IsTerminalNode tree this; Some s
  | OpSetGlobalIndexStart index =>
      tree' ← SetGlobalIndexStart tree index this; Some (this, tree')
  | OpSetGlobalIndexFromLocal index =>
      tree' ← SetGlobalIndexFromLocal tree index this; Some (this, tree')
  | OpSubdivideLeaf level =>
      tree' ← SubdivideLeaf tree level this; Some (this, tree')
  | OpToChild ichild =>
      this' ← ToChild tree ichild this; Some (this', tree)
  end.

Fixpoint run_ops (ops : list EntryOp) (s : CursorState) : option CursorState :=
  match ops with
  | [] => Some s
  | op :: ops' => s' ← run_op op s; run_ops ops' s'
  end.

(** ** Well-formed trees *)

(** A coarse cell's children come after it and are cells of the tree. *)
Definition cell_wf (t : vtkHyperTree) (pos : nat) (c : CellState) : Prop :=
  match c with
  | LeafCell => True
  | CoarseCell elder =>
      (pos < elder)%nat ∧ (elder + BranchingFactor t ≤ NumberOfCells t)%nat
  end.

#[global] Instance cell_wf_dec t pos c : Decision (cell_wf t pos c).
Proof. destruct c; simpl; apply _. Defined.

Definition tree_wf (t : vtkHyperTree) : Prop :=
  (0 < NumberOfCells t)%nat ∧
  Forall (λ pc, cell_wf t pc.1 pc.2) (imap pair (Cells t)).

#[global] Instance tree_wf_dec t : Decision (tree_wf t).
Proof. unfold tree_wf. apply _. Defined.

(** ** Global indices along a sequence of calls *)

(** No cell other than the one at [pos] holds the global index [g]. *)
Definition FreshAt (table : gmap nat Z) (pos : nat) (g : Z) : Prop :=
  map_Forall (λ q g', q = pos ∨ g' ≠ g) table.

(** The global indices the tree's bookkeeping would give to the children
    created by a subdivision at [level]. *)
Definition ChildIndices (t : vtkHyperTree) (level : nat) : list Z :=
  (λ pos, Numbering t (GlobalIndexTable t) level pos)
    <$> seq (NumberOfCells t) (BranchingFactor t).

Definition FreshChildren (t : vtkHyperTree) (level : nat) : Prop :=
  NoDup (ChildIndices t level) ∧
  Forall (λ g, map_Forall (λ _ g', g' ≠ g) (GlobalIndexTable t))
         (ChildIndices t level).

(** A call hands out only global indices that no other cell holds. *)
Definition fresh_op (op : EntryOp) (s : CursorState) : bool :=
  let '(this, tree) := s in
  match op with
  | OpSetGlobalIndexStart index =>
      bool_decide (FreshAt (GlobalIndexTable tree) 0 index)
  | OpSetGlobalIndexFromLocal index =>
      bool_decide (FreshAt (GlobalIndexTable tree) (Z.to_nat (Index this)) index)
  | OpSubdivideLeaf level =>
      match IsLeaf tree this with
      | Some true => bool_decide (FreshChildren tree level)
      | _ => true
      end
  | _ => true
  end.

Fixpoint disciplined (ops : list EntryOp) (s : CursorState) : bool :=
  match ops with
  | [] => true
  | op :: ops' =>
      fresh_op op s &&
      match run_op op s with
      | Some s' => disciplined ops' s'
      | None => true
      end
  end.

(** The mapping table has entries for cells only, and no two cells share a
    global index. *)
Definition table_inv (t : vtkHyperTree) : Prop :=
  (∀ q, is_Some (GlobalIndexTable t !! q) → (q < NumberOfCells t)%nat) ∧
  (∀ p q g, GlobalIndexTable t !! p = Some g →
            GlobalIndexTable t !! q = Some g → p = q).

(** Every cell of the tree is numbered by the contiguous policy, counting
    from [start] at the root. *)
Definition contiguous_from (start : Z) (t : vtkHyperTree) : Prop :=
  Numbering t = ContiguousNumbering ∧
  (0 < NumberOfCells t)%nat ∧
  ∀ q, GlobalIndexTable t !! q =
       if bool_decide (q < NumberOfCells t)%nat
       then Some (start + Z.of_nat q) else None.

(** The calls by which a caller writes a global index. *)
Definition registers (op : EntryOp) : bool :=
  match op with
  | OpSetGlobalIndexStart _ | OpSetGlobalIndexFromLocal _ => true
  | _ => false
  end.

(** The calls that move the entry only by descent: every call except the
    two that overwrite the index with a value of the caller's,
    [Initialize(index)] and [Copy]. *)
Definition descends (op : EntryOp) : bool :=
  match op with
  | OpInitializeIndex _ | OpCopy _ => false
  | _ => true
  end.



(** ** Sample trees and grids *)

(** A quadtree whose root has been subdivided once. *)
Definition QuadOnce : vtkHyperTree :=
  {| BranchingFactor := 4;
     Cells := [CoarseCell 1; LeafCell; LeafCell; LeafCell; LeafCell];
     GlobalIndexTable := ∅;
     Numbering := ContiguousNumbering |}.

(** The same quadtree after its third child has been subdivided too. *)
Definition QuadTwice : vtkHyperTree :=
  {| BranchingFactor := 4;
     Cells := [CoarseCell 1; LeafCell; LeafCell; CoarseCell 5; LeafCell;
               LeafCell; LeafCell; LeafCell; LeafCell];
     GlobalIndexTable := ∅;
     Numbering := ContiguousNumbering |}.

Definition SampleGrid : vtkHyperTreeGrid :=
  {| MaxNumberOfTrees := 3;
     GridBranchingFactor := 4;
     GridNumbering := ContiguousNumbering;
     HyperTrees := {[ 1 := QuadOnce ]} |}.

(** Seed the root with 10, subdivide it, descend to its third child and
    subdivide that child. *)
Definition SampleTrace : list EntryOp :=
  [OpSetGlobalIndexStart 10; OpSubdivideLeaf 0; OpToChild 2; OpSubdivideLeaf 1].


Definition SampleStore : gmap nat vtkHyperTreeGridEntry :=
  {[ 0%nat := {| Index := 7 |}; 1%nat := {| Index := 0 |} ]}.

(** * Properties *)

(** ** The members defined in the header *)

Section Header.
Implicit Types (this entry : vtkHyperTreeGridEntry) (index : Z).
Implicit Types (s : gmap nat vtkHyperTreeGridEntry) (p : nat).

Lemma deref_Some s p e : s !! p = Some e → deref p s = Some (e, s).
Proof. intros H. unfold deref. by rewrite H. Qed.

Lemma assign_Some s p e e' :
  s !! p = Some e → assign p e' s = Some (tt, <[p := e']> s).
Proof. intros H. unfold assign. by rewrite H. Qed.

Lemma const_member_Some {A} (f : vtkHyperTreeGridEntry → A) s p e :
  s !! p = Some e → const_member f p s = Some (f e, s).
Proof. intros H. unfold const_member, bind, ret. by rewrite (deref_Some _ _ _ H). Qed.

Lemma member_Some f s p e :
  s !! p = Some e → member f p s = Some (tt, <[p := f e]> s).
Proof.
  intros H. unfold member, bind.
  rewrite (deref_Some _ _ _ H). by apply assign_Some with e.
Qed.

Lemma IsRoot_true this : IsRoot this = true ↔ Index this = 0.
Proof. unfold IsRoot. apply Z.eqb_eq. Qed.

End Header.

(** C7. [IsRoot()] answers true exactly when the stored index is 0.  Its
    answer is a function of the stored index alone: two entries with the
    same index agree on it, whatever tree each one is used with. *)
Theorem IsRoot_spec (this : vtkHyperTreeGridEntry) :
  (IsRoot this = true ↔ Index this = 0) ∧
  (IsRoot this = false ↔ Index this ≠ 0) ∧
  (∀ other, Index other = Index this → IsRoot other = IsRoot this).
Proof.
  split; [apply IsRoot_true|]. split.
  - unfold IsRoot. apply Z.eqb_neq.
  - intros other H. unfold IsRoot. by rewrite H.
Qed.

(** C8. [Initialize(i)] stores exactly [i]: afterwards [GetVertexId()] is
    [i], every other entry of the store is as before, and the call succeeds
    with any tree left as it is, whether or not [i] is a cell of it. *)
Theorem InitializeIndex_spec (i : Z) (s : gmap nat vtkHyperTreeGridEntry)
    (this : nat) (e : vtkHyperTreeGridEntry) :
  s !! this = Some e →
  ∃ s', call_InitializeIndex this i s = Some (tt, s') ∧
        call_GetVertexId this s' = Some (i, s') ∧
        s' !! this = Some {| Index := i |} ∧
        (∀ p, p ≠ this → s' !! p = s !! p) ∧
        (∀ tree, run_op (OpInitializeIndex i) (e, tree)
                 = Some ({| Index := i |}, tree)).
Proof.
  intros H. exists (<[this := InitializeIndex i e]> s).
  split; [by apply member_Some|].
  split; [|split; [|split]].
  - unfold call_GetVertexId.
    by rewrite (const_member_Some _ _ _ (InitializeIndex i e))
      by apply lookup_insert_eq.
  - by rewrite lookup_insert_eq.
  - intros p Hp. by rewrite lookup_insert_ne.
  - done.
Qed.

Lemma InitializeIndex_spec_witness :
  ∃ s', call_InitializeIndex 0 (-5) SampleStore = Some (tt, s') ∧
        call_GetVertexId 0 s' = Some (-5, s') ∧
        s' !! 0%nat = Some {| Index := -5 |} ∧
        (∀ p, p ≠ 0%nat → s' !! p = SampleStore !! p) ∧
        (∀ tree, run_op (OpInitializeIndex (-5)) ({| Index := 7 |}, tree)
                 = Some ({| Index := -5 |}, tree)).
Proof. apply (InitializeIndex_spec (-5) SampleStore 0 {| Index := 7 |}). reflexivity. Defined.

(** C9. [GetVertexId()] returns the stored index and leaves the store, and
    so the entry, as it was. *)
Theorem GetVertexId_spec (s : gmap nat vtkHyperTreeGridEntry) (this : nat)
    (e : vtkHyperTreeGridEntry) :
  s !! this = Some e →
  GetVertexId e = Index e ∧
  call_GetVertexId this s = Some (Index e, s).
Proof.
  intros H. split; [done|].
  unfold call_GetVertexId. by rewrite (const_member_Some _ _ _ _ H).
Qed.

Lemma GetVertexId_spec_witness :
  GetVertexId {| Index := 7 |} = 7 ∧
  call_GetVertexId 0 SampleStore = Some (7, SampleStore).
Proof. apply (GetVertexId_spec SampleStore 0 {| Index := 7 |}). reflexivity. Defined.

(** C10. A default-constructed entry holds index 0, so it reports vertex id
    0 and is at the root without any [Initialize]; the constructor from an
    index stores every value as it is, also a value that is a cell of no
    tree. *)
Theorem constructors_spec :
  Index vtkHyperTreeGridEntry_default = 0 ∧
  GetVertexId vtkHyperTreeGridEntry_default = 0 ∧
  IsRoot vtkHyperTreeGridEntry_default = true ∧
  (∀ index, Index (vtkHyperTreeGridEntry_index index) = index ∧
            GetVertexId (vtkHyperTreeGridEntry_index index) = index) ∧
  (∀ tree, CellAt tree (GetVertexId (vtkHyperTreeGridEntry_index (-1))) = None).
Proof.
  repeat split; try done.
Qed.

(** C6. After [b.Copy(&a)] both entries report the same vertex id, [b]
    holds [a]'s index, [a] is as it was (also when [a] and [b] are the same
    object), and no other entry of the store has changed. *)
Theorem Copy_spec (s : gmap nat vtkHyperTreeGridEntry) (pa pb : nat)
    (a b : vtkHyperTreeGridEntry) :
  s !! pa = Some a →
  s !! pb = Some b →
  ∃ s', call_Copy pb pa s = Some (tt, s') ∧
        call_GetVertexId pb s' = Some (GetVertexId a, s') ∧
        call_GetVertexId pa s' = Some (GetVertexId a, s') ∧
        s' !! pb = Some {| Index := Index a |} ∧
        s' !! pa = Some a ∧
        (∀ p, p ≠ pb → s' !! p = s !! p).
Proof.
  intros Ha Hb. exists (<[pb := Copy a b]> s).
  assert (Hpa : <[pb := Copy a b]> s !! pa = Some a).
  { destruct (decide (pb = pa)) as [->|Hne].
    - rewrite lookup_insert_eq. destruct a. done.
    - by rewrite lookup_insert_ne. }
  split.
  { unfold call_Copy, bind. rewrite (deref_Some _ _ _ Ha).
    by apply member_Some. }
  split; [|split; [|split; [|split]]].
  - unfold call_GetVertexId.
    by rewrite (const_member_Some _ _ _ (Copy a b)) by apply lookup_insert_eq.
  - unfold call_GetVertexId. by rewrite (const_member_Some _ _ _ a).
  - by rewrite lookup_insert_eq.
  - done.
  - intros p Hp. by rewrite lookup_insert_ne.
Qed.

Lemma Copy_spec_witness :
  ∃ s', call_Copy 1 0 SampleStore = Some (tt, s') ∧
        call_GetVertexId 1 s' = Some (7, s') ∧
        call_GetVertexId 0 s' = Some (7, s') ∧
        s' !! 1%nat = Some {| Index := 7 |} ∧
        s' !! 0%nat = Some {| Index := 7 |} ∧
        (∀ p, p ≠ 1%nat → s' !! p = SampleStore !! p).
Proof.
  apply (Copy_spec SampleStore 0 1 {| Index := 7 |} {| Index := 0 |});
    reflexivity.
Defined.

(** ** Cells of a tree *)

Section Cells.
Implicit Types (t tree : vtkHyperTree) (this : vtkHyperTreeGridEntry).
Implicit Types (i : Z) (pos elder ichild : nat).

Lemma CellPos_Some t i pos :
  CellPos t i = Some pos ↔
  0 ≤ i ∧ pos = Z.to_nat i ∧ (pos < NumberOfCells t)%nat.
Proof.
  unfold CellPos. case_bool_decide as Hr.
  - split; [intros [= <-]; lia | intros (? & -> & ?); done].
  - split; [done | intros (? & -> & ?); lia].
Qed.

Lemma CellPos_of_nat t pos :
  (pos < NumberOfCells t)%nat → CellPos t (Z.of_nat pos) = Some pos.
Proof. intros H. apply CellPos_Some. lia. Qed.

Lemma CellAt_of_nat t pos :
  (pos < NumberOfCells t)%nat → CellAt t (Z.of_nat pos) = Cells t !! pos.
Proof. intros H. unfold CellAt. by rewrite CellPos_of_nat. Qed.

Lemma CellAt_Some t i c :
  CellAt t i = Some c ↔ 0 ≤ i ∧ Cells t !! Z.to_nat i = Some c.
Proof.
  unfold CellAt. split.
  - intros H. destruct (CellPos t i) as [pos|] eqn:E; [|done].
    apply CellPos_Some in E as (? & -> & ?). done.
  - intros [H0 H]. rewrite (proj2 (CellPos_Some t i (Z.to_nat i))); [done|].
    apply lookup_lt_Some in H. unfold NumberOfCells. lia.
Qed.

Lemma IsLeaf_true tree this :
  IsLeaf tree this = Some true ↔ CellAt tree (Index this) = Some LeafCell.
Proof.
  unfold IsLeaf, IsLeafAt.
  destruct (CellAt tree (Index this)) as [[|elder]|]; naive_solver.
Qed.

Lemma IsLeaf_false tree this :
  IsLeaf tree this = Some false ↔
  ∃ elder, CellAt tree (Index this) = Some (CoarseCell elder).
Proof.
  unfold IsLeaf, IsLeafAt.
  destruct (CellAt tree (Index this)) as [[|elder]|]; naive_solver.
Qed.

Lemma ToChild_coarse tree ichild this elder :
  CellAt tree (Index this) = Some (CoarseCell elder) →
  (ichild < BranchingFactor tree)%nat →
  ToChild tree ichild this = Some {| Index := Z.of_nat (elder + ichild) |}.
Proof.
  intros H Hlt. unfold ToChild, IsLeaf, IsLeafAt, ChildLocalIndex.
  rewrite H. simpl. by rewrite bool_decide_eq_true_2.
Qed.

Lemma ToChild_Some tree ichild this child :
  ToChild tree ichild this = Some child →
  ∃ elder, CellAt tree (Index this) = Some (CoarseCell elder) ∧
           (ichild < BranchingFactor tree)%nat ∧
           child = {| Index := Z.of_nat (elder + ichild) |}.
Proof.
  unfold ToChild, IsLeaf, IsLeafAt, ChildLocalIndex.
  destruct (CellAt tree (Index this)) as [[|elder]|]; simpl; try done.
  case_bool_decide; [|done]. intros [= <-]. eauto.
Qed.

End Cells.

(** ** Initialization on a grid *)


(** C1. [Initialize(grid, treeIndex, create)] returns what the grid resolves
    and resets the index to 0, so that [IsRoot()] holds and [GetVertexId()]
    is 0 afterwards.  The returned handle is absent exactly when the tree
    index is out of the grid's range, or the tree is unallocated and
    [create] is false.  On a valid index the tree the grid holds there is
    the one returned, with the grid left as it is; an unallocated tree asked
    for with [create] is a new tree, which the grid holds at that index
    afterwards. *)
Theorem Initialize_spec (grid : vtkHyperTreeGrid) (treeIndex : Z)
    (create : bool) (this : vtkHyperTreeGridEntry) :
  ∃ tree this' grid',
    Initialize grid treeIndex create this = (tree, this', grid') ∧
    Index this' = 0 ∧ IsRoot this' = true ∧ GetVertexId this' = 0 ∧
    (tree = None ↔
       ¬ ValidTreeIndex grid treeIndex ∨
       (HyperTrees grid !! treeIndex = None ∧ create = false)) ∧
    (∀ t0, ValidTreeIndex grid treeIndex →
           HyperTrees grid !! treeIndex = Some t0 →
           tree = Some t0 ∧ grid' = grid) ∧
    (ValidTreeIndex grid treeIndex →
     HyperTrees grid !! treeIndex = None → create = true →
     tree = Some (NewTree (GridBranchingFactor grid) (GridNumbering grid)) ∧
     HyperTrees grid'
       = <[treeIndex := NewTree (GridBranchingFactor grid) (GridNumbering grid)]>
           (HyperTrees grid) ∧
     MaxNumberOfTrees grid' = MaxNumberOfTrees grid) ∧
    (∀ t, tree = Some t → HyperTrees grid' !! treeIndex = Some t) ∧
    (tree = None → grid' = grid).
Proof.
  unfold Initialize, GetTree. case_bool_decide as Hv.
  - destruct (HyperTrees grid !! treeIndex) as [t0|] eqn:E.
    + eexists _, _, _. split; [done|].
      split; [done|]. split; [done|]. split; [done|].
      split; [naive_solver|]. split; [by intros t1 _ [= <-]|].
      split; [done|]. split; [by intros t [= <-]|done].
    + destruct create.
      * eexists _, _, _. split; [done|].
        split; [done|]. split; [done|]. split; [done|].
        split; [naive_solver|]. split; [done|]. split; [done|].
        split; [|done]. intros t [= <-]. simpl. by rewrite lookup_insert_eq.
      * eexists _, _, _. split; [done|].
        split; [done|]. split; [done|]. split; [done|].
        split; [naive_solver|]. split; [done|]. split; [done|]. done.
  - eexists _, _, _. split; [done|].
    split; [done|]. split; [done|]. split; [done|].
    split; [naive_solver|]. split; [done|]. split; [done|]. done.
Qed.

(** The four cases on a grid of three tree slots with a tree at slot 1. *)
Example Initialize_allocated :
  Initialize SampleGrid 1 false {| Index := 3 |}
  = (Some QuadOnce, {| Index := 0 |}, SampleGrid).
Proof. reflexivity. Qed.

Example Initialize_unallocated :
  Initialize SampleGrid 0 false {| Index := 3 |}
  = (None, {| Index := 0 |}, SampleGrid).
Proof. reflexivity. Qed.

Example Initialize_created :
  (Initialize SampleGrid 0 true {| Index := 3 |}).1
  = (Some (NewTree 4 ContiguousNumbering), {| Index := 0 |}).
Proof. reflexivity. Qed.

Example Initialize_out_of_range :
  Initialize SampleGrid 3 true {| Index := 3 |}
  = (None, {| Index := 0 |}, SampleGrid).
Proof. reflexivity. Qed.

(** ** Descent *)

(** C2. On a coarse cell and for a child number below the branching factor,
    [ToChild(tree, ichild)] moves the index to the local index the tree's
    layout gives for that child; the tree is not changed and the entry has
    no other state. *)
Theorem ToChild_spec (tree : vtkHyperTree) (ichild : nat)
    (this : vtkHyperTreeGridEntry) :
  IsLeaf tree this = Some false →
  (0 ≤ ichild < BranchingFactor tree)%nat →
  ∃ child, ToChild tree ichild this = Some child ∧
           ChildLocalIndex tree (Index this) ichild = Some (Index child) ∧
           child = {| Index := Index child |} ∧
           run_op (OpToChild ichild) (this, tree) = Some (child, tree).
Proof.
  intros [elder H]%IsLeaf_false [_ Hlt].
  exists {| Index := Z.of_nat (elder + ichild) |}.
  pose proof (ToChild_coarse _ _ _ _ H Hlt) as Hc.
  split; [done|]. split; [|split; [done|]].
  - unfold ChildLocalIndex. by rewrite H.
  - simpl. by rewrite Hc.
Qed.

Lemma ToChild_spec_witness :
  ∃ child, ToChild QuadOnce 2 {| Index := 0 |} = Some child ∧
           ChildLocalIndex QuadOnce 0 2 = Some (Index child) ∧
           child = {| Index := Index child |} ∧
           run_op (OpToChild 2) ({| Index := 0 |}, QuadOnce) = Some (child, QuadOnce).
Proof.
  apply (ToChild_spec QuadOnce 2 {| Index := 0 |}); [reflexivity | simpl; lia].
Defined.

(** Outside its preconditions [ToChild] has no result. *)
Example ToChild_examples :
  ToChild QuadOnce 3 {| Index := 0 |} = Some {| Index := 4 |} ∧
  ToChild QuadOnce 4 {| Index := 0 |} = None ∧
  ToChild QuadOnce 0 {| Index := 1 |} = None ∧
  ToChild QuadTwice 1 {| Index := 3 |} = Some {| Index := 6 |}.
Proof. repeat split. Qed.

(** ** Subdivision *)

Section Subdivision.
Implicit Types (t tree : vtkHyperTree) (this : vtkHyperTreeGridEntry).
Implicit Types (i : Z) (pos elder ichild level : nat).

Lemma tree_wf_alt t :
  tree_wf t ↔
  (0 < NumberOfCells t)%nat ∧
  ∀ pos c, Cells t !! pos = Some c → cell_wf t pos c.
Proof.
  unfold tree_wf. rewrite Forall_lookup. split; intros [H0 H]; split; try done.
  - intros pos c Hc. apply (H pos (pos, c)).
    by rewrite list_lookup_imap, Hc.
  - intros k [pos c]. rewrite list_lookup_imap.
    destruct (Cells t !! k) as [c'|] eqn:E; [|done].
    intros [= <- <-]. by apply H.
Qed.

Lemma NewTree_wf factor policy : tree_wf (NewTree factor policy).
Proof.
  apply tree_wf_alt. split; [unfold NumberOfCells; simpl; lia|].
  intros [|pos] c; [|done]. by intros [= <-].
Qed.

Lemma SetGlobalIndex_Some t i value t' :
  SetGlobalIndex t i value = Some t' →
  0 ≤ i ∧ (Z.to_nat i < NumberOfCells t)%nat ∧
  BranchingFactor t' = BranchingFactor t ∧
  Cells t' = Cells t ∧
  Numbering t' = Numbering t ∧
  GlobalIndexTable t' = <[Z.to_nat i := value]> (GlobalIndexTable t).
Proof.
  unfold SetGlobalIndex. destruct (CellPos t i) as [pos|] eqn:E; [|done].
  apply CellPos_Some in E as (? & -> & ?). by intros [= <-].
Qed.

Lemma SetGlobalIndex_wf t i value t' :
  SetGlobalIndex t i value = Some t' → tree_wf t → tree_wf t'.
Proof.
  intros (_ & _ & Hb & Hc & _)%SetGlobalIndex_Some.
  rewrite !tree_wf_alt. unfold cell_wf, NumberOfCells. by rewrite Hb, Hc.
Qed.

Lemma Subdivide_Some t i level t' :
  Subdivide t i level = Some t' ↔
  CellAt t i = Some LeafCell ∧
  t' = {| BranchingFactor := BranchingFactor t;
          Cells := <[Z.to_nat i := CoarseCell (NumberOfCells t)]> (Cells t)
                     ++ replicate (BranchingFactor t) LeafCell;
          GlobalIndexTable :=
            RegisterChildren (Numbering t) (GlobalIndexTable t) level
              (NumberOfCells t) (BranchingFactor t) (GlobalIndexTable t);
          Numbering := Numbering t |}.
Proof.
  unfold Subdivide, CellAt.
  destruct (CellPos t i) as [pos|] eqn:E; simpl; [|naive_solver].
  apply CellPos_Some in E as (? & -> & ?).
  destruct (Cells t !! Z.to_nat i) as [[|elder]|]; naive_solver.
Qed.

Lemma Subdivide_NumberOfCells t i level t' :
  Subdivide t i level = Some t' →
  NumberOfCells t' = (NumberOfCells t + BranchingFactor t)%nat.
Proof.
  intros [_ ->]%Subdivide_Some. unfold NumberOfCells. simpl.
  by rewrite length_app, length_insert, length_replicate.
Qed.

(** The subdivided cell is coarse, with the first new cell as elder child. *)
Lemma Subdivide_parent t i level t' :
  Subdivide t i level = Some t' →
  CellAt t' i = Some (CoarseCell (NumberOfCells t)).
Proof.
  intros [Hl ->]%Subdivide_Some.
  apply CellAt_Some in Hl as [H0 Hl]. apply CellAt_Some. split; [done|].
  simpl. pose proof (lookup_lt_Some _ _ _ Hl) as Hlt.
  rewrite lookup_app_l by (by rewrite length_insert).
  by apply list_lookup_insert_eq.
Qed.

(** The new cells are leaves. *)
Lemma Subdivide_children t i level t' ichild :
  Subdivide t i level = Some t' →
  (ichild < BranchingFactor t)%nat →
  Cells t' !! (NumberOfCells t + ichild)%nat = Some LeafCell.
Proof.
  intros [_ ->]%Subdivide_Some Hlt. simpl.
  rewrite lookup_app_r by (rewrite length_insert; unfold NumberOfCells; lia).
  rewrite length_insert. unfold NumberOfCells.
  replace (length (Cells t) + ichild - length (Cells t))%nat with ichild by lia.
  by apply lookup_replicate_2.
Qed.

(** The other cells keep their state. *)
Lemma Subdivide_others t i level t' pos :
  Subdivide t i level = Some t' →
  (pos < NumberOfCells t)%nat → pos ≠ Z.to_nat i →
  Cells t' !! pos = Cells t !! pos.
Proof.
  intros [_ ->]%Subdivide_Some Hlt Hne. simpl.
  rewrite lookup_app_l by (by rewrite length_insert).
  by apply list_lookup_insert_ne.
Qed.

Lemma Subdivide_wf t i level t' :
  Subdivide t i level = Some t' → tree_wf t → tree_wf t'.
Proof.
  intros Hs. rewrite !tree_wf_alt. intros [H0 Hwf].
  pose proof (Subdivide_NumberOfCells _ _ _ _ Hs) as Hn.
  pose proof (Subdivide_parent _ _ _ _ Hs) as Hp.
  assert (Hb : BranchingFactor t' = BranchingFactor t)
    by (apply Subdivide_Some in Hs as [_ ->]; done).
  apply CellAt_Some in Hp as [Hi Hp].
  apply Subdivide_Some in Hs as Hs'. destruct Hs' as [Hl _].
  apply CellAt_Some in Hl as [_ Hl]. apply lookup_lt_Some in Hl.
  split; [lia|]. intros pos c Hc.
  destruct (decide (pos = Z.to_nat i)) as [->|Hne].
  { rewrite Hp in Hc. injection Hc as <-. simpl.
    unfold NumberOfCells in *. lia. }
  destruct (decide (pos < NumberOfCells t)%nat) as [Hlt|Hge].
  - rewrite (Subdivide_others _ _ _ _ _ Hs Hlt Hne) in Hc.
    specialize (Hwf pos c Hc). destruct c; simpl in *; [done|]. lia.
  - pose proof (lookup_lt_Some _ _ _ Hc) as Hlt. fold (NumberOfCells t') in Hlt.
    pose proof (Subdivide_children t i level t' (pos - NumberOfCells t) Hs)
      as Hk.
    replace (NumberOfCells t + (pos - NumberOfCells t))%nat with pos in Hk
      by lia.
    rewrite Hk in Hc by lia. by injection Hc as <-.
Qed.

Lemma SubdivideLeaf_wf tree level this tree' :
  SubdivideLeaf tree level this = Some tree' → tree_wf tree → tree_wf tree'.
Proof.
  unfold SubdivideLeaf. destruct (IsLeaf tree this) as [[|]|]; simpl; try done.
  - apply Subdivide_wf.
  - by intros [= <-].
Qed.


Lemma run_op_wf op (s s' : vtkHyperTreeGridEntry * vtkHyperTree) :
  run_op op s = Some s' → tree_wf s.2 → tree_wf s'.2.
Proof.
  destruct s as [this tree].
  destruct op; simpl; intros H Hwf; simplify_option_eq; try done.
  - by eapply SetGlobalIndex_wf.
  - by eapply SetGlobalIndex_wf.
  - by eapply SubdivideLeaf_wf.
Qed.

End Subdivision.





(** ** Terminal nodes *)

Section Terminal.
Implicit Types (tree : vtkHyperTree) (this : vtkHyperTreeGridEntry).
Implicit Types (elder ichild : nat).

(** On a coarse cell the flags are those of the cells after the elder
    child. *)
Lemma ChildrenLeafFlags_coarse tree this elder flags :
  CellAt tree (Index this) = Some (CoarseCell elder) →
  ChildrenLeafFlags tree this = Some flags ↔
  length flags = BranchingFactor tree ∧
  ∀ ichild, (ichild < BranchingFactor tree)%nat →
    IsLeafAt tree (Z.of_nat (elder + ichild)) = flags !! ichild.
Proof.
  intros Hc. unfold ChildrenLeafFlags, ChildLocalIndex. rewrite Hc. simpl.
  rewrite mapM_Some. split.
  - intros HF. pose proof (Forall2_length _ _ _ HF) as Hlen.
    rewrite length_seq in Hlen. split; [done|]. intros ichild Hlt.
    destruct (Forall2_lookup_l _ _ _ ichild ichild HF) as (b & Hb & Hf).
    { by apply lookup_seq. }
    by rewrite Hb.
  - intros [Hlen Hall]. apply Forall2_same_length_lookup_2.
    { by rewrite length_seq. }
    intros k x b Hx Hb. apply lookup_seq in Hx as [-> Hlt]. simpl.
    by rewrite Hall.
Qed.

Lemma forallb_id_true (flags : list bool) :
  forallb id flags = true ↔ ∀ k b, flags !! k = Some b → b = true.
Proof.
  induction flags as [|b flags IH]; simpl.
  - split; [intros _ k b; done | done].
  - rewrite andb_true_iff, IH. split.
    + intros [Hb H] [|k] b'; simpl; [by intros [= <-] | apply H].
    + intros H. split; [by apply (H 0%nat) | intros k; apply (H (S k))].
Qed.

Lemma wf_child_is_Some tree this elder ichild :
  tree_wf tree →
  CellAt tree (Index this) = Some (CoarseCell elder) →
  (ichild < BranchingFactor tree)%nat →
  is_Some (IsLeafAt tree (Z.of_nat (elder + ichild))).
Proof.
  intros [_ Hwf]%tree_wf_alt [_ Hc]%CellAt_Some Hlt.
  destruct (Hwf _ _ Hc) as [_ Hb]. unfold IsLeafAt.
  rewrite CellAt_of_nat by lia. apply fmap_is_Some, lookup_lt_is_Some.
  unfold NumberOfCells in Hb. lia.
Qed.

(** In a well-formed tree a child reached by [ToChild] is a cell of the
    tree and is not the root. *)
Lemma ToChild_valid tree ichild this child :
  tree_wf tree →
  ToChild tree ichild this = Some child →
  is_Some (IsLeaf tree child) ∧ IsRoot child = false.
Proof.
  intros Hwf (elder & Hc & Hlt & ->)%ToChild_Some. split.
  - by eapply wf_child_is_Some.
  - apply tree_wf_alt in Hwf as [_ Hwf]. apply CellAt_Some in Hc as [_ Hc].
    destruct (Hwf _ _ Hc) as [Hp _]. unfold IsRoot. simpl. apply Z.eqb_neq. lia.
Qed.

(** A coarse cell all of whose children are leaves is terminal. *)
Lemma IsTerminalNode_all_leaves tree this :
  IsLeaf tree this = Some false →
  (∀ ichild, (ichild < BranchingFactor tree)%nat →
     ∃ child, ToChild tree ichild this = Some child ∧
              IsLeaf tree child = Some true) →
  IsTerminalNode tree this = Some true.
Proof.
  intros Hl Hall. unfold IsTerminalNode. rewrite Hl. simpl.
  apply IsLeaf_false in Hl as [elder Hc].
  assert (Hf : ChildrenLeafFlags tree this
               = Some (replicate (BranchingFactor tree) true)).
  { apply (ChildrenLeafFlags_coarse _ _ _ _ Hc).
    split; [by rewrite length_replicate|]. intros ichild Hlt.
    destruct (Hall _ Hlt) as (child & Hto & Hcl).
    rewrite (ToChild_coarse _ _ _ _ Hc Hlt) in Hto. injection Hto as <-.
    unfold IsLeaf in Hcl. simpl in Hcl. rewrite Hcl.
    symmetry. by apply lookup_replicate_2. }
  rewrite Hf. simpl. f_equal. apply forallb_id_true.
  intros k b Hb. by apply lookup_replicate in Hb as [-> _].
Qed.

(** In a well-formed tree a coarse cell with a coarse child is not
    terminal. *)
Lemma IsTerminalNode_coarse_child tree this ichild child :
  tree_wf tree →
  IsLeaf tree this = Some false →
  ToChild tree ichild this = Some child →
  IsLeaf tree child = Some false →
  IsTerminalNode tree this = Some false.
Proof.
  intros Hwf Hl Hto Hcl. unfold IsTerminalNode.
  rewrite Hl. simpl. apply IsLeaf_false in Hl as [elder Hc].
  apply ToChild_Some in Hto as (elder' & Hc' & Hlt & ->).
  rewrite Hc in Hc'. injection Hc' as <-.
  assert (Hf : is_Some (ChildrenLeafFlags tree this)).
  { unfold ChildrenLeafFlags, ChildLocalIndex. rewrite Hc. simpl.
    apply mapM_is_Some, Forall_forall. intros k Hk.
    apply elem_of_seq in Hk. simpl.
    apply (wf_child_is_Some _ _ _ _ Hwf Hc). lia. }
  destruct Hf as [flags Hf]. rewrite Hf. simpl. f_equal.
  apply (ChildrenLeafFlags_coarse _ _ _ _ Hc) in Hf as [Hlen Hall].
  unfold IsLeaf in Hcl. simpl in Hcl. rewrite (Hall _ Hlt) in Hcl.
  destruct (forallb id flags) eqn:E; [|done].
  pose proof (proj1 (forallb_id_true flags) E _ _ Hcl). done.
Qed.

(** A leaf that has just been subdivided is terminal. *)
Lemma SubdivideLeaf_terminal tree level this tree' :
  IsLeaf tree this = Some true →
  SubdivideLeaf tree level this = Some tree' →
  IsTerminalNode tree' this = Some true.
Proof.
  intros Hl. unfold SubdivideLeaf. rewrite Hl. simpl. intros Hs.
  pose proof (Subdivide_parent _ _ _ _ Hs) as Hp.
  assert (Hb : BranchingFactor tree' = BranchingFactor tree)
    by (apply Subdivide_Some in Hs as [_ ->]; done).
  apply IsTerminalNode_all_leaves; [apply IsLeaf_false; eauto|].
  intros ichild Hlt. rewrite Hb in Hlt.
  eexists. split; [apply ToChild_coarse; [done|lia]|].
  apply IsLeaf_true. simpl. rewrite CellAt_of_nat.
  - by eapply Subdivide_children.
  - rewrite (Subdivide_NumberOfCells _ _ _ _ Hs). lia.
Qed.

(** Once one of its children is subdivided, a cell is not terminal any
    more. *)
Lemma SubdivideLeaf_child_not_terminal tree level this ichild child tree' :
  tree_wf tree →
  ToChild tree ichild this = Some child →
  IsLeaf tree child = Some true →
  SubdivideLeaf tree level child = Some tree' →
  IsTerminalNode tree' this = Some false.
Proof.
  intros Hwf Hto Hcl Hsl.
  pose proof (SubdivideLeaf_wf _ _ _ _ Hsl Hwf) as Hwf'.
  unfold SubdivideLeaf in Hsl. rewrite Hcl in Hsl. simpl in Hsl.
  apply ToChild_Some in Hto as (elder & Hc & Hlt & ->). simpl in *.
  assert (Hb : BranchingFactor tree' = BranchingFactor tree)
    by (apply Subdivide_Some in Hsl as [_ ->]; done).
  pose proof (Subdivide_parent _ _ _ _ Hsl) as Hp.
  apply CellAt_Some in Hc as [H0 Hc].
  pose proof (proj1 (tree_wf_alt tree) Hwf) as [_ Hcells].
  destruct (Hcells _ _ Hc) as [Hlt' _].
  assert (Hc' : CellAt tree' (Index this) = Some (CoarseCell elder)).
  { apply CellAt_Some. split; [done|].
    rewrite (Subdivide_others _ _ _ _ _ Hsl); [done| |lia].
    by apply lookup_lt_Some in Hc. }
  apply (IsTerminalNode_coarse_child tree' this ichild
           {| Index := Z.of_nat (elder + ichild) |}); [done| | |].
  - apply IsLeaf_false. eauto.
  - apply ToChild_coarse; [done|lia].
  - apply IsLeaf_false. eauto.
Qed.

End Terminal.

(** C4. [IsTerminalNode(tree)] answers true exactly when the current cell
    is coarse and every direct child is a leaf.  It answers false on a leaf,
    and, the tree being well formed, false on a coarse cell that has a child
    which is not a leaf. *)
Theorem IsTerminalNode_spec (tree : vtkHyperTree) (this : vtkHyperTreeGridEntry) :
  (IsTerminalNode tree this = Some true ↔
     IsLeaf tree this = Some false ∧
     ∀ ichild, (ichild < BranchingFactor tree)%nat →
       ∃ child, ToChild tree ichild this = Some child ∧
                IsLeaf tree child = Some true) ∧
  (IsLeaf tree this = Some true → IsTerminalNode tree this = Some false) ∧
  (tree_wf tree →
   IsLeaf tree this = Some false →
   (∃ ichild child, ToChild tree ichild this = Some child ∧
                    IsLeaf tree child = Some false) →
   IsTerminalNode tree this = Some false).
Proof.
  split; [|split].
  - split.
    + unfold IsTerminalNode. intros H.
      destruct (IsLeaf tree this) as [[|]|] eqn:Hl; simpl in H; try done.
      split; [done|]. apply IsLeaf_false in Hl as [elder Hc].
      destruct (ChildrenLeafFlags tree this) as [flags|] eqn:Hf; [|done].
      simpl in H. injection H as H.
      apply (ChildrenLeafFlags_coarse _ _ _ _ Hc) in Hf as [Hlen Hall].
      intros ichild Hlt. eexists. split; [by apply ToChild_coarse|].
      unfold IsLeaf. simpl. rewrite (Hall _ Hlt).
      destruct (lookup_lt_is_Some_2 flags ichild) as [b Hb]; [lia|].
      rewrite Hb. f_equal. by eapply forallb_id_true.
    + intros [Hl Hall]. by apply IsTerminalNode_all_leaves.
  - intros Hl. unfold IsTerminalNode. by rewrite Hl.
  - intros Hwf Hl (ichild & child & Hto & Hcl).
    by eapply IsTerminalNode_coarse_child.
Qed.

Lemma IsTerminalNode_spec_witness :
  IsTerminalNode QuadTwice {| Index := 0 |} = Some false.
Proof.
  refine (proj2 (proj2 (IsTerminalNode_spec QuadTwice {| Index := 0 |})) _ _ _).
  - exact (bool_decide_unpack (tree_wf QuadTwice) I).
  - reflexivity.
  - exists 2%nat, {| Index := 3 |}. split; reflexivity.
Defined.

Example terminal_examples :
  IsTerminalNode QuadOnce {| Index := 0 |} = Some true ∧
  IsTerminalNode QuadOnce {| Index := 2 |} = Some false ∧
  IsTerminalNode QuadTwice {| Index := 0 |} = Some false ∧
  IsTerminalNode QuadTwice {| Index := 3 |} = Some true ∧
  IsTerminalNode QuadTwice {| Index := 9 |} = None.
Proof. repeat split. Qed.

(** ** Global indices *)

Section GlobalIndices.
Implicit Types (t tree : vtkHyperTree) (this : vtkHyperTreeGridEntry).
Implicit Types (table : gmap nat Z) (p q pos first count level : nat).

Lemma RegisterChildren_lookup policy seed level first count table q :
  RegisterChildren policy seed level first count table !! q =
  if bool_decide (first ≤ q < first + count)%nat
  then Some (policy seed level q) else table !! q.
Proof.
  revert first. induction count as [|count IH]; intros first; simpl.
  - by rewrite bool_decide_eq_false_2 by lia.
  - destruct (decide (first = q)) as [->|Hne].
    + rewrite lookup_insert_eq. by rewrite bool_decide_eq_true_2 by lia.
    + rewrite lookup_insert_ne by done. rewrite IH.
      rewrite (bool_decide_ext (S first ≤ q < S first + count)%nat
                 (first ≤ q < first + S count)%nat) by lia. done.
Qed.

Lemma NewTree_table_inv factor policy : table_inv (NewTree factor policy).
Proof. split; simpl; [intros q [g Hg]|intros p q g Hg]; by rewrite lookup_empty in Hg. Qed.

Lemma SetGlobalIndex_table_inv t i value t' :
  SetGlobalIndex t i value = Some t' →
  FreshAt (GlobalIndexTable t) (Z.to_nat i) value →
  table_inv t → table_inv t'.
Proof.
  intros (H0 & Hlt & _ & Hc & _ & Ht)%SetGlobalIndex_Some Hfresh [Hdom Hinj].
  unfold table_inv, NumberOfCells. rewrite Ht, Hc. split.
  - intros q. destruct (decide (q = Z.to_nat i)) as [->|Hne]; [done|].
    rewrite lookup_insert_ne by done. apply Hdom.
  - intros p q g.
    destruct (decide (p = Z.to_nat i)) as [->|Hp];
      destruct (decide (q = Z.to_nat i)) as [->|Hq]; try done.
    + rewrite lookup_insert_eq, lookup_insert_ne by done.
      intros [= <-] Hq'. by destruct (Hfresh _ _ Hq').
    + rewrite lookup_insert_eq, lookup_insert_ne by done.
      intros Hp' [= <-]. by destruct (Hfresh _ _ Hp').
    + rewrite !lookup_insert_ne by done. apply Hinj.
Qed.

Lemma ChildIndices_lookup t level q :
  (NumberOfCells t ≤ q < NumberOfCells t + BranchingFactor t)%nat →
  ChildIndices t level !! (q - NumberOfCells t)%nat
  = Some (Numbering t (GlobalIndexTable t) level q).
Proof.
  intros Hq. unfold ChildIndices. rewrite list_lookup_fmap.
  rewrite (lookup_seq_lt _ _ _) by lia. simpl. do 2 f_equal. lia.
Qed.

Lemma Subdivide_table_inv t i level t' :
  Subdivide t i level = Some t' →
  FreshChildren t level →
  table_inv t → table_inv t'.
Proof.
  intros Hs [Hnd Hnew] [Hdom Hinj]. split.
  - intros q. rewrite (Subdivide_NumberOfCells _ _ _ _ Hs).
    apply Subdivide_Some in Hs as [_ ->]. simpl.
    rewrite RegisterChildren_lookup. case_bool_decide; [lia|].
    intros Hq%Hdom. lia.
  - apply Subdivide_Some in Hs as [_ ->]. simpl. intros p q g.
    rewrite !RegisterChildren_lookup.
    case_bool_decide as Hp; case_bool_decide as Hq.
    + intros [= <-] [= Heq].
      pose proof (ChildIndices_lookup t level p Hp) as Lp.
      pose proof (ChildIndices_lookup t level q Hq) as Lq.
      rewrite Heq in Lq.
      pose proof (NoDup_lookup _ _ _ _ Hnd Lp Lq). lia.
    + intros [= <-] Hq'. exfalso.
      pose proof (ChildIndices_lookup t level p Hp) as Lp.
      apply (Forall_lookup_1 _ _ _ _ Hnew) in Lp. by apply (Lp _ _ Hq').
    + intros Hp' [= <-]. exfalso.
      pose proof (ChildIndices_lookup t level q Hq) as Lq.
      apply (Forall_lookup_1 _ _ _ _ Hnew) in Lq. by apply (Lq _ _ Hp').
    + apply Hinj.
Qed.

Lemma run_op_table_inv op (s s' : vtkHyperTreeGridEntry * vtkHyperTree) :
  run_op op s = Some s' → fresh_op op s = true →
  table_inv s.2 → table_inv s'.2.
Proof.
  destruct s as [this tree].
  destruct op; simpl; intros H Hf Hinv; simplify_option_eq; try done.
  - apply bool_decide_eq_true in Hf. by eapply SetGlobalIndex_table_inv.
  - apply bool_decide_eq_true in Hf. by eapply SetGlobalIndex_table_inv.
  - match goal with H : SubdivideLeaf _ _ _ = Some _ |- _ =>
      unfold SubdivideLeaf in H;
      destruct (IsLeaf tree this) as [[|]|]; simpl in H; try done end.
    + apply bool_decide_eq_true in Hf. by eapply Subdivide_table_inv.
    + by simplify_eq.
Qed.

Lemma run_ops_table_inv ops (s s' : vtkHyperTreeGridEntry * vtkHyperTree) :
  run_ops ops s = Some s' → disciplined ops s = true →
  table_inv s.2 → table_inv s'.2.
Proof.
  revert s. induction ops as [|op ops IH]; intros s; simpl.
  - by intros [= <-].
  - destruct (run_op op s) as [s1|] eqn:E; simpl; [|done].
    intros Hrun [Hf Hd]%andb_true_iff Hinv.
    apply (IH s1); [done..|]. by eapply run_op_table_inv.
Qed.

Lemma GetGlobalNodeIndex_Some tree this g :
  GetGlobalNodeIndex tree this = Some g →
  0 ≤ Index this ∧ GlobalIndexTable tree !! Z.to_nat (Index this) = Some g.
Proof.
  unfold GetGlobalNodeIndex, GetGlobalIndex.
  destruct (CellPos tree (Index this)) as [pos|] eqn:E; [|done].
  apply CellPos_Some in E as (? & -> & ?). done.
Qed.

Lemma table_inv_distinct tree e1 e2 g :
  table_inv tree →
  GetGlobalNodeIndex tree e1 = Some g →
  GetGlobalNodeIndex tree e2 = Some g →
  Index e1 = Index e2.
Proof.
  intros [_ Hinj] [H1 G1]%GetGlobalNodeIndex_Some [H2 G2]%GetGlobalNodeIndex_Some.
  pose proof (Hinj _ _ _ G1 G2). lia.
Qed.


End GlobalIndices.

(** ** Contiguous numbering

    With the contiguous policy and no registration by the caller after the
    seed, each cell has the seed plus its local index as global index. *)

Section Contiguous.
Implicit Types (t tree : vtkHyperTree) (this : vtkHyperTreeGridEntry).
Variable start : Z.

Lemma contiguous_after_start factor this t :
  SetGlobalIndexStart (NewTree factor ContiguousNumbering) start this = Some t →
  contiguous_from start t.
Proof.
  intros (_ & _ & _ & Hc & Hn & Ht)%SetGlobalIndex_Some.
  unfold contiguous_from, NumberOfCells. rewrite Hc, Hn, Ht. simpl.
  split; [done|]. split; [lia|]. intros [|q].
  - rewrite lookup_insert_eq. by rewrite Z.add_0_r.
  - rewrite lookup_insert_ne by done. by rewrite bool_decide_eq_false_2 by lia.
Qed.

Lemma contiguous_policy t level pos :
  contiguous_from start t →
  Numbering t (GlobalIndexTable t) level pos = start + Z.of_nat pos.
Proof.
  intros (-> & H0 & Ht). unfold ContiguousNumbering.
  rewrite Ht, bool_decide_eq_true_2 by done. simpl. lia.
Qed.

Lemma contiguous_FreshChildren t level :
  contiguous_from start t → FreshChildren t level.
Proof.
  intros Hc. pose proof Hc as (_ & _ & Ht). unfold FreshChildren, ChildIndices.
  split.
  - apply NoDup_fmap_2_strong; [|apply NoDup_seq].
    intros p q _ _. rewrite !(contiguous_policy _ _ _ Hc). lia.
  - apply Forall_fmap, Forall_forall. intros pos [Hpos _]%elem_of_seq.
    simpl. rewrite (contiguous_policy _ _ _ Hc). intros q g Hq.
    rewrite Ht in Hq. case_bool_decide; [|done]. injection Hq as <-. lia.
Qed.

Lemma contiguous_Subdivide t i level t' :
  contiguous_from start t → Subdivide t i level = Some t' →
  contiguous_from start t'.
Proof.
  intros Hc Hs. pose proof Hc as (Hn & H0 & Ht).
  pose proof (Subdivide_NumberOfCells _ _ _ _ Hs) as Hcells.
  unfold contiguous_from. rewrite Hcells.
  apply Subdivide_Some in Hs as [_ ->]. simpl.
  split; [done|]. split; [lia|]. intros q.
  rewrite RegisterChildren_lookup, Ht, (contiguous_policy _ _ _ Hc).
  repeat case_bool_decide; try done; lia.
Qed.

Lemma contiguous_run_op op (s s' : vtkHyperTreeGridEntry * vtkHyperTree) :
  registers op = false → run_op op s = Some s' →
  contiguous_from start s.2 → contiguous_from start s'.2.
Proof.
  destruct s as [this tree].
  destruct op; simpl; intros Hr H Hc; simplify_option_eq; try done.
  match goal with H : SubdivideLeaf _ _ _ = Some _ |- _ =>
    unfold SubdivideLeaf in H;
    destruct (IsLeaf tree this) as [[|]|]; simpl in H; try done end.
  - by eapply contiguous_Subdivide.
  - by simplify_eq.
Qed.

Lemma contiguous_fresh_op op (s : vtkHyperTreeGridEntry * vtkHyperTree) :
  registers op = false → contiguous_from start s.2 → fresh_op op s = true.
Proof.
  destruct s as [this tree]. destruct op; simpl; intros Hr Hc; try done.
  destruct (IsLeaf tree this) as [[|]|]; try done.
  by apply bool_decide_eq_true, contiguous_FreshChildren.
Qed.

Lemma contiguous_disciplined ops (s : vtkHyperTreeGridEntry * vtkHyperTree) :
  forallb (λ op, negb (registers op)) ops = true →
  contiguous_from start s.2 →
  disciplined ops s = true.
Proof.
  revert s. induction ops as [|op ops IH]; intros s; simpl; [done|].
  intros [Hr Hops]%andb_true_iff Hc. apply negb_true_iff in Hr.
  rewrite (contiguous_fresh_op _ _ Hr Hc). simpl.
  destruct (run_op op s) as [s1|] eqn:E; [|done].
  apply IH; [done|]. by eapply contiguous_run_op.
Qed.

Lemma contiguous_run_ops ops (s s' : vtkHyperTreeGridEntry * vtkHyperTree) :
  forallb (λ op, negb (registers op)) ops = true →
  run_ops ops s = Some s' →
  contiguous_from start s.2 → contiguous_from start s'.2.
Proof.
  revert s. induction ops as [|op ops IH]; intros s; simpl.
  - by intros _ [= <-].
  - intros [Hr Hops]%andb_true_iff. apply negb_true_iff in Hr.
    destruct (run_op op s) as [s1|] eqn:E; simpl; [|done].
    intros Hrun Hc. apply (IH s1); [done..|]. by eapply contiguous_run_op.
Qed.

Lemma run_ops_start ops this t :
  run_ops (OpSetGlobalIndexStart start :: ops) (this, t) =
  t' ← SetGlobalIndexStart t start this; run_ops ops (this, t').
Proof. simpl. by destruct (SetGlobalIndexStart t start this). Qed.

Lemma disciplined_start ops this t :
  disciplined (OpSetGlobalIndexStart start :: ops) (this, t) =
  bool_decide (FreshAt (GlobalIndexTable t) 0 start) &&
  match SetGlobalIndexStart t start this with
  | Some t' => disciplined ops (this, t')
  | None => true
  end.
Proof. simpl. by destruct (SetGlobalIndexStart t start this). Qed.

(** After the seed and any number of subdivisions, with descents in
    between, the cell at local index [i] has global index [start + i]; the
    global indices are therefore pairwise distinct. *)
Lemma contiguous_subdivisions factor ops this tree :
  forallb (λ op, negb (registers op)) ops = true →
  run_ops (OpSetGlobalIndexStart start :: ops)
          (vtkHyperTreeGridEntry_default, NewTree factor ContiguousNumbering)
    = Some (this, tree) →
  disciplined (OpSetGlobalIndexStart start :: ops)
              (vtkHyperTreeGridEntry_default, NewTree factor ContiguousNumbering)
    = true ∧
  ∀ e, is_Some (IsLeaf tree e) →
       GetGlobalNodeIndex tree e = Some (start + Index e).
Proof.
  intros Hops. rewrite run_ops_start, disciplined_start.
  destruct (SetGlobalIndexStart _ start _) as [t0|] eqn:E; simpl; [|done].
  intros Hrun. pose proof (contiguous_after_start _ _ _ E) as Hc0. split.
  - rewrite bool_decide_eq_true_2 by (by intros q g Hq). simpl.
    by apply contiguous_disciplined.
  - pose proof (contiguous_run_ops _ _ _ Hops Hrun Hc0) as (_ & _ & Ht).
    simpl in Ht. intros e [b Hb]. unfold IsLeaf, IsLeafAt in Hb.
    destruct (CellAt tree (Index e)) as [c|] eqn:Hc; [|done].
    apply CellAt_Some in Hc as [H0 Hc]. apply lookup_lt_Some in Hc.
    unfold GetGlobalNodeIndex, GetGlobalIndex.
    rewrite (proj2 (CellPos_Some tree (Index e) (Z.to_nat (Index e)))) by done.
    simpl. rewrite Ht, bool_decide_eq_true_2 by done. f_equal. lia.
Qed.

End Contiguous.

(** The scenario of a quadtree seeded with 10 whose root is subdivided once:
    the root and its four children have five different global indices. *)
Example quad_global_indices :
  ∃ this tree,
    run_ops [OpSetGlobalIndexStart 10; OpSubdivideLeaf 0]
            (vtkHyperTreeGridEntry_default, NewTree 4 ContiguousNumbering)
      = Some (this, tree) ∧
    Cells tree = Cells QuadOnce ∧
    (λ i, GetGlobalNodeIndex tree {| Index := i |}) <$> [0; 1; 2; 3; 4; 5]
      = [Some 10; Some 11; Some 12; Some 13; Some 14; None].
Proof. eexists _, _. split; [reflexivity|]. split; reflexivity. Qed.

(** * Further properties of the members defined in the header *)

Section StoreCalls.
Implicit Types (s : gmap nat vtkHyperTreeGridEntry) (p : nat) (i j : Z).
Implicit Types (e a b c : vtkHyperTreeGridEntry).

Lemma call_InitializeIndex_Some s p e i :
  s !! p = Some e →
  call_InitializeIndex p i s = Some (tt, <[p := {| Index := i |}]> s).
Proof. intros H. unfold call_InitializeIndex. by rewrite (member_Some _ _ _ _ H). Qed.

Lemma call_Copy_Some s pa pb a b :
  s !! pa = Some a → s !! pb = Some b →
  call_Copy pb pa s = Some (tt, <[pb := {| Index := Index a |}]> s).
Proof.
  intros Ha Hb. unfold call_Copy, bind. rewrite (deref_Some _ _ _ Ha).
  by rewrite (member_Some _ _ _ _ Hb).
Qed.

Lemma call_GetVertexId_Some s p e :
  s !! p = Some e → call_GetVertexId p s = Some (Index e, s).
Proof. intros H. unfold call_GetVertexId. by rewrite (const_member_Some _ _ _ _ H). Qed.

Lemma call_IsRoot_Some s p e :
  s !! p = Some e → call_IsRoot p s = Some (IsRoot e, s).
Proof. intros H. unfold call_IsRoot. by rewrite (const_member_Some _ _ _ _ H). Qed.

End StoreCalls.

(** X1. [Copy] copies the value and keeps no link to its source: after
    [b.Copy(&a)], re-pointing [a] with [a.Initialize(i)] leaves [b] on the
    index [a] had when it was copied. *)
Theorem Copy_keeps_no_link (s : gmap nat vtkHyperTreeGridEntry) (pa pb : nat)
    (a b : vtkHyperTreeGridEntry) (i : Z) :
  s !! pa = Some a → s !! pb = Some b → pa ≠ pb →
  ∃ s', bind (call_Copy pb pa) (λ _, call_InitializeIndex pa i) s
          = Some (tt, s') ∧
        call_GetVertexId pb s' = Some (Index a, s') ∧
        call_GetVertexId pa s' = Some (i, s') ∧
        (∀ p, p ≠ pa → p ≠ pb → s' !! p = s !! p).
Proof.
  intros Ha Hb Hne.
  exists (<[pa := {| Index := i |}]> (<[pb := {| Index := Index a |}]> s)).
  split; [|split; [|split]].
  - unfold bind. rewrite (call_Copy_Some _ _ _ _ _ Ha Hb).
    apply call_InitializeIndex_Some with a. by rewrite lookup_insert_ne.
  - apply (call_GetVertexId_Some _ _ {| Index := Index a |}).
    rewrite lookup_insert_ne by done. by rewrite lookup_insert_eq.
  - apply (call_GetVertexId_Some _ _ {| Index := i |}).
    by rewrite lookup_insert_eq.
  - intros p H1 H2. by rewrite !lookup_insert_ne.
Qed.

Lemma Copy_keeps_no_link_witness :
  ∃ s', bind (call_Copy 1 0) (λ _, call_InitializeIndex 0 42) SampleStore
          = Some (tt, s') ∧
        call_GetVertexId 1 s' = Some (7, s') ∧
        call_GetVertexId 0 s' = Some (42, s') ∧
        (∀ p, p ≠ 0%nat → p ≠ 1%nat → s' !! p = SampleStore !! p).
Proof.
  apply (Copy_keeps_no_link SampleStore 0 1 {| Index := 7 |} {| Index := 0 |} 42);
    [reflexivity | reflexivity | lia].
Defined.

(** X2. Copying an entry onto itself, [a.Copy(&a)], changes nothing: the
    store after the call is the store before it. *)
Theorem Copy_self (s : gmap nat vtkHyperTreeGridEntry) (p : nat)
    (e : vtkHyperTreeGridEntry) :
  s !! p = Some e → call_Copy p p s = Some (tt, s).
Proof.
  intros H. rewrite (call_Copy_Some _ _ _ _ _ H H). do 2 f_equal.
  apply insert_id. by destruct e.
Qed.

Lemma Copy_self_witness : call_Copy 0 0 SampleStore = Some (tt, SampleStore).
Proof. apply (Copy_self SampleStore 0 {| Index := 7 |}). reflexivity. Defined.

(** X3. Copies chain: after [b.Copy(&a)] and then [c.Copy(&b)], all three
    entries report the vertex id [a] had, whichever of the three addresses
    coincide. *)
Theorem Copy_chain (s : gmap nat vtkHyperTreeGridEntry) (pa pb pc : nat)
    (a b c : vtkHyperTreeGridEntry) :
  s !! pa = Some a → s !! pb = Some b → s !! pc = Some c →
  ∃ s', bind (call_Copy pb pa) (λ _, call_Copy pc pb) s = Some (tt, s') ∧
        call_GetVertexId pa s' = Some (Index a, s') ∧
        call_GetVertexId pb s' = Some (Index a, s') ∧
        call_GetVertexId pc s' = Some (Index a, s').
Proof.
  intros Ha Hb Hc.
  set (s1 := <[pb := {| Index := Index a |}]> s).
  assert (H1b : s1 !! pb = Some {| Index := Index a |})
    by (unfold s1; by rewrite lookup_insert_eq).
  assert (H1a : ∃ a1, s1 !! pa = Some a1 ∧ Index a1 = Index a).
  { unfold s1. destruct (decide (pb = pa)) as [->|Hne].
    - rewrite lookup_insert_eq. eauto.
    - rewrite lookup_insert_ne by done. eauto. }
  assert (H1c : ∃ c1, s1 !! pc = Some c1).
  { unfold s1. destruct (decide (pb = pc)) as [->|Hne].
    - rewrite lookup_insert_eq. eauto.
    - rewrite lookup_insert_ne by done. eauto. }
  destruct H1a as (a1 & H1a & Ea), H1c as (c1 & H1c).
  exists (<[pc := {| Index := Index a |}]> s1).
  split; [|split; [|split]].
  - unfold bind. rewrite (call_Copy_Some _ _ _ _ _ Ha Hb). fold s1.
    by rewrite (call_Copy_Some _ _ _ _ _ H1b H1c).
  - destruct (decide (pc = pa)) as [->|Hne].
    + apply (call_GetVertexId_Some _ _ {| Index := Index a |}).
      by rewrite lookup_insert_eq.
    + rewrite <- Ea. apply call_GetVertexId_Some.
      by rewrite lookup_insert_ne.
  - apply (call_GetVertexId_Some _ _ {| Index := Index a |}).
    destruct (decide (pc = pb)) as [->|Hne].
    + by rewrite lookup_insert_eq.
    + by rewrite lookup_insert_ne.
  - apply (call_GetVertexId_Some _ _ {| Index := Index a |}).
    by rewrite lookup_insert_eq.
Qed.

Lemma Copy_chain_witness :
  ∃ s', bind (call_Copy 1 0) (λ _, call_Copy 0 1) SampleStore = Some (tt, s') ∧
        call_GetVertexId 0 s' = Some (7, s') ∧
        call_GetVertexId 1 s' = Some (7, s') ∧
        call_GetVertexId 0 s' = Some (7, s').
Proof.
  apply (Copy_chain SampleStore 0 1 0 {| Index := 7 |} {| Index := 0 |}
           {| Index := 7 |}); reflexivity.
Defined.

(** X4. After [Initialize(i)] the entry answers [IsRoot()] with true exactly
    when [i] is 0, whatever it held before, and [IsRoot()] leaves the store
    as [Initialize] made it. *)
Theorem Initialize_then_IsRoot (s : gmap nat vtkHyperTreeGridEntry) (p : nat)
    (e : vtkHyperTreeGridEntry) (i : Z) :
  s !! p = Some e →
  ∃ s', call_InitializeIndex p i s = Some (tt, s') ∧
        bind (call_InitializeIndex p i) (λ _, call_IsRoot p) s
          = Some (bool_decide (i = 0), s').
Proof.
  intros H. exists (<[p := {| Index := i |}]> s).
  pose proof (call_InitializeIndex_Some _ _ _ i H) as Hi.
  split; [done|]. unfold bind. rewrite Hi.
  rewrite (call_IsRoot_Some _ _ {| Index := i |}) by apply lookup_insert_eq.
  do 2 f_equal. unfold IsRoot. simpl.
  destruct (Z.eqb_spec i 0) as [->|Hne].
  - by rewrite bool_decide_eq_true_2.
  - by rewrite bool_decide_eq_false_2.
Qed.

Lemma Initialize_then_IsRoot_witness :
  ∃ s', call_InitializeIndex 0 0 SampleStore = Some (tt, s') ∧
        bind (call_InitializeIndex 0 0) (λ _, call_IsRoot 0) SampleStore
          = Some (bool_decide (0 = 0), s').
Proof.
  apply (Initialize_then_IsRoot SampleStore 0 {| Index := 7 |} 0). reflexivity.
Defined.

(** X5. The last [Initialize] wins: [Initialize(j)] followed by
    [Initialize(i)] leaves the store exactly as [Initialize(i)] alone does. *)
Theorem Initialize_last_wins (s : gmap nat vtkHyperTreeGridEntry) (p : nat)
    (e : vtkHyperTreeGridEntry) (i j : Z) :
  s !! p = Some e →
  bind (call_InitializeIndex p j) (λ _, call_InitializeIndex p i) s
  = call_InitializeIndex p i s.
Proof.
  intros H. unfold bind. rewrite (call_InitializeIndex_Some _ _ _ j H).
  rewrite (call_InitializeIndex_Some _ _ {| Index := j |} i)
    by apply lookup_insert_eq.
  rewrite (call_InitializeIndex_Some _ _ _ i H). by rewrite insert_insert_eq.
Qed.

Lemma Initialize_last_wins_witness :
  bind (call_InitializeIndex 0 3) (λ _, call_InitializeIndex 0 9) SampleStore
  = call_InitializeIndex 0 9 SampleStore.
Proof.
  apply (Initialize_last_wins SampleStore 0 {| Index := 7 |} 9 3). reflexivity.
Defined.

(** * Further properties of the members that take a tree or a grid

    These members are declared in the header and run on the tree and the
    grid as modelled above. *)

Section TreeCalls.
Implicit Types (t tree : vtkHyperTree) (this e : vtkHyperTreeGridEntry).
Implicit Types (i g : Z) (pos ichild level : nat).

Lemma IsLeaf_is_Some tree this :
  is_Some (IsLeaf tree this) ↔
  0 ≤ Index this < Z.of_nat (NumberOfCells tree).
Proof.
  unfold IsLeaf, IsLeafAt. rewrite fmap_is_Some. split.
  - intros [c [H0 Hc]%CellAt_Some]. apply lookup_lt_Some in Hc.
    unfold NumberOfCells. lia.
  - intros H. destruct (lookup_lt_is_Some_2 (Cells tree) (Z.to_nat (Index this)))
      as [c Hc]; [unfold NumberOfCells in H; lia|].
    exists c. apply CellAt_Some. split; [lia|done].
Qed.

Lemma SubdivideLeaf_leaf tree level this :
  IsLeaf tree this = Some true →
  ∃ tree', SubdivideLeaf tree level this = Some tree' ∧
           Subdivide tree (Index this) level = Some tree'.
Proof.
  intros Hl. unfold SubdivideLeaf. rewrite Hl. simpl.
  apply IsLeaf_true in Hl.
  destruct (Subdivide tree (Index this) level) as [tree'|] eqn:Hs; [eauto|].
  pose proof (proj2 (Subdivide_Some tree (Index this) level _)
                (conj Hl eq_refl)) as Hs'.
  by rewrite Hs in Hs'.
Qed.

(** A subdivision leaves the state of every other cell as it was. *)
Lemma Subdivide_CellAt_other t i level t' e :
  Subdivide t i level = Some t' →
  is_Some (IsLeaf t e) → Index e ≠ i →
  CellAt t' (Index e) = CellAt t (Index e).
Proof.
  intros Hs He Hne. apply IsLeaf_is_Some in He.
  pose proof (Subdivide_NumberOfCells _ _ _ _ Hs) as Hn.
  apply Subdivide_Some in Hs as Hs'. destruct Hs' as [[H0 _]%CellAt_Some _].
  unfold CellAt.
  rewrite (proj2 (CellPos_Some t' (Index e) (Z.to_nat (Index e)))) by lia.
  rewrite (proj2 (CellPos_Some t (Index e) (Z.to_nat (Index e)))) by lia.
  simpl. apply (Subdivide_others _ _ _ _ _ Hs); lia.
Qed.

Lemma Subdivide_BranchingFactor t i level t' :
  Subdivide t i level = Some t' → BranchingFactor t' = BranchingFactor t.
Proof. by intros [_ ->]%Subdivide_Some. Qed.

Lemma SubdivideLeaf_grows tree level this tree' :
  SubdivideLeaf tree level this = Some tree' →
  BranchingFactor tree' = BranchingFactor tree ∧
  (NumberOfCells tree ≤ NumberOfCells tree')%nat.
Proof.
  unfold SubdivideLeaf. destruct (IsLeaf tree this) as [[|]|]; simpl; try done.
  - intros Hs. split; [by eapply Subdivide_BranchingFactor|].
    rewrite (Subdivide_NumberOfCells _ _ _ _ Hs). lia.
  - by intros [= <-].
Qed.

(** What a descending call keeps: the tree is well formed, the entry is on
    one of its cells, and the branching factor is the same. *)
Lemma run_op_descends op (s s' : vtkHyperTreeGridEntry * vtkHyperTree) :
  descends op = true → run_op op s = Some s' →
  tree_wf s.2 → is_Some (IsLeaf s.2 s.1) →
  tree_wf s'.2 ∧ is_Some (IsLeaf s'.2 s'.1) ∧
  BranchingFactor s'.2 = BranchingFactor s.2.
Proof.
  intros Hd Hrun Hwf Hon. split; [by eapply run_op_wf|].
  destruct s as [this tree]. simpl in *.
  destruct op; simpl in *; simplify_option_eq; try done.
  - match goal with H : SetGlobalIndexStart _ _ _ = Some _ |- _ =>
      apply SetGlobalIndex_Some in H as (_ & _ & Hb & Hc & _) end.
    split; [|done]. apply IsLeaf_is_Some. apply IsLeaf_is_Some in Hon.
    unfold NumberOfCells in *. by rewrite Hc.
  - match goal with H : SetGlobalIndexFromLocal _ _ _ = Some _ |- _ =>
      apply SetGlobalIndex_Some in H as (_ & _ & Hb & Hc & _) end.
    split; [|done]. apply IsLeaf_is_Some. apply IsLeaf_is_Some in Hon.
    unfold NumberOfCells in *. by rewrite Hc.
  - match goal with H : SubdivideLeaf _ _ _ = Some _ |- _ =>
      apply SubdivideLeaf_grows in H as [Hb Hn] end.
    split; [|done]. apply IsLeaf_is_Some. apply IsLeaf_is_Some in Hon. lia.
  - split; [|done].
    match goal with H : ToChild _ _ _ = Some _ |- _ =>
      by apply (ToChild_valid _ _ _ _ Hwf) in H as [? _] end.
Qed.

End TreeCalls.

(** X6. On a cell of the tree, [SetGlobalIndexFromLocal(tree, g)] followed by
    [GetGlobalNodeIndex(tree)] gives [g] back.  The call changes the global
    index of no other cell, and it changes neither the leaf flags nor the
    children of any cell. *)
Theorem SetGlobalIndexFromLocal_round_trip (tree : vtkHyperTree)
    (this : vtkHyperTreeGridEntry) (g : Z) :
  is_Some (IsLeaf tree this) →
  ∃ tree', SetGlobalIndexFromLocal tree g this = Some tree' ∧
    GetGlobalNodeIndex tree' this = Some g ∧
    (∀ e, Index e ≠ Index this →
          GetGlobalNodeIndex tree' e = GetGlobalNodeIndex tree e) ∧
    (∀ e, IsLeaf tree' e = IsLeaf tree e) ∧
    (∀ e ichild, ToChild tree' ichild e = ToChild tree ichild e).
Proof.
  intros Hon%IsLeaf_is_Some.
  assert (Hpos : CellPos tree (Index this) = Some (Z.to_nat (Index this)))
    by (apply CellPos_Some; lia).
  unfold SetGlobalIndexFromLocal, SetGlobalIndex. rewrite Hpos. simpl.
  eexists. split; [done|]. split; [|split; [|split]].
  - unfold GetGlobalNodeIndex, GetGlobalIndex, CellPos, NumberOfCells in *.
    simpl. rewrite Hpos. simpl. by rewrite lookup_insert_eq.
  - intros e Hne. unfold GetGlobalNodeIndex, GetGlobalIndex.
    change (CellPos _ (Index e)) with (CellPos tree (Index e)).
    destruct (CellPos tree (Index e)) as [pos|] eqn:E; [|done].
    apply CellPos_Some in E as (? & -> & ?). simpl.
    rewrite lookup_insert_ne; [done|]. lia.
  - done.
  - done.
Qed.

Lemma SetGlobalIndexFromLocal_round_trip_witness :
  ∃ tree', SetGlobalIndexFromLocal QuadOnce 99 {| Index := 2 |} = Some tree' ∧
    GetGlobalNodeIndex tree' {| Index := 2 |} = Some 99.
Proof.
  destruct (SetGlobalIndexFromLocal_round_trip QuadOnce {| Index := 2 |} 99)
    as (tree' & H1 & H2 & _); [by eexists|].
  exists tree'. by split.
Defined.

(** X7. [SubdivideLeaf] is idempotent: once it has run on a cell, running
    it again on the same cell, at any level, leaves the tree as it is. *)
Theorem SubdivideLeaf_idempotent (tree : vtkHyperTree) (level level' : nat)
    (this : vtkHyperTreeGridEntry) (tree' : vtkHyperTree) :
  SubdivideLeaf tree level this = Some tree' →
  SubdivideLeaf tree' level' this = Some tree'.
Proof.
  unfold SubdivideLeaf at 1.
  destruct (IsLeaf tree this) as [[|]|] eqn:Hl; simpl; try done.
  - intros Hs. pose proof (Subdivide_parent _ _ _ _ Hs) as Hp.
    unfold SubdivideLeaf, IsLeaf, IsLeafAt. by rewrite Hp.
  - intros [= <-]. unfold SubdivideLeaf. by rewrite Hl.
Qed.

Lemma SubdivideLeaf_idempotent_witness :
  ∃ tree', SubdivideLeaf QuadOnce 1 {| Index := 3 |} = Some tree' ∧
           SubdivideLeaf tree' 2 {| Index := 3 |} = Some tree'.
Proof.
  eexists. split; [reflexivity|].
  apply (SubdivideLeaf_idempotent QuadOnce 1 2 {| Index := 3 |}). reflexivity.
Defined.

(** X8. [SubdivideLeaf] touches one cell only: for an entry on any other
    cell of the tree, [IsLeaf] answers as before and [ToChild] leads to the
    same children as before. *)
Theorem SubdivideLeaf_frame (tree : vtkHyperTree) (level : nat)
    (this : vtkHyperTreeGridEntry) (tree' : vtkHyperTree)
    (e : vtkHyperTreeGridEntry) :
  SubdivideLeaf tree level this = Some tree' →
  is_Some (IsLeaf tree e) → Index e ≠ Index this →
  IsLeaf tree' e = IsLeaf tree e ∧
  ∀ ichild, ToChild tree' ichild e = ToChild tree ichild e.
Proof.
  unfold SubdivideLeaf at 1.
  destruct (IsLeaf tree this) as [[|]|] eqn:Hl; simpl; try done.
  - intros Hs He Hne.
    pose proof (Subdivide_CellAt_other _ _ _ _ _ Hs He Hne) as Hc.
    pose proof (Subdivide_BranchingFactor _ _ _ _ Hs) as Hb.
    split.
    + unfold IsLeaf, IsLeafAt. by rewrite Hc.
    + intros ichild. unfold ToChild, IsLeaf, IsLeafAt, ChildLocalIndex.
      by rewrite Hc, Hb.
  - by intros [= <-].
Qed.

Lemma SubdivideLeaf_frame_witness :
  ∃ tree', SubdivideLeaf QuadOnce 1 {| Index := 3 |} = Some tree' ∧
    IsLeaf tree' {| Index := 0 |} = IsLeaf QuadOnce {| Index := 0 |} ∧
    ∀ ichild, ToChild tree' ichild {| Index := 0 |}
              = ToChild QuadOnce ichild {| Index := 0 |}.
Proof.
  eexists. split; [reflexivity|].
  apply (SubdivideLeaf_frame QuadOnce 1 {| Index := 3 |});
    [reflexivity | by eexists | done].
Defined.

(** X9. Subdividing a leaf of a well-formed tree makes it a terminal node;
    subdividing any one of its new children then makes it non-terminal, and
    makes that child terminal in its turn. *)
Theorem terminal_after_subdivisions (tree : vtkHyperTree) (level : nat)
    (this : vtkHyperTreeGridEntry) :
  tree_wf tree → IsLeaf tree this = Some true →
  ∃ tree1,
    SubdivideLeaf tree level this = Some tree1 ∧
    IsTerminalNode tree1 this = Some true ∧
    ∀ ichild level', (ichild < BranchingFactor tree)%nat →
      ∃ child tree2,
        ToChild tree1 ichild this = Some child ∧
        SubdivideLeaf tree1 level' child = Some tree2 ∧
        IsTerminalNode tree2 this = Some false ∧
        IsTerminalNode tree2 child = Some true.
Proof.
  intros Hwf Hl.
  destruct (SubdivideLeaf_leaf tree level this Hl) as (tree1 & Hsl & Hs).
  pose proof (SubdivideLeaf_wf _ _ _ _ Hsl Hwf) as Hwf1.
  exists tree1. split; [done|]. split; [by eapply SubdivideLeaf_terminal|].
  intros ichild level' Hlt.
  pose proof (Subdivide_parent _ _ _ _ Hs) as Hp.
  pose proof (Subdivide_BranchingFactor _ _ _ _ Hs) as Hb.
  set (child := {| Index := Z.of_nat (NumberOfCells tree + ichild) |}).
  assert (Hto : ToChild tree1 ichild this = Some child)
    by (apply ToChild_coarse; [done|lia]).
  assert (Hcl : IsLeaf tree1 child = Some true).
  { apply IsLeaf_true. simpl. rewrite CellAt_of_nat.
    - by eapply Subdivide_children.
    - rewrite (Subdivide_NumberOfCells _ _ _ _ Hs). lia. }
  destruct (SubdivideLeaf_leaf tree1 level' child Hcl) as (tree2 & Hsl2 & _).
  exists child, tree2. split; [done|]. split; [done|]. split.
  - by eapply SubdivideLeaf_child_not_terminal.
  - by eapply SubdivideLeaf_terminal.
Qed.

Lemma terminal_after_subdivisions_witness :
  ∃ tree1,
    SubdivideLeaf QuadOnce 1 {| Index := 3 |} = Some tree1 ∧
    IsTerminalNode tree1 {| Index := 3 |} = Some true.
Proof.
  destruct (terminal_after_subdivisions QuadOnce 1 {| Index := 3 |})
    as (tree1 & H1 & H2 & _).
  - exact (bool_decide_unpack (tree_wf QuadOnce) I).
  - reflexivity.
  - exists tree1. by split.
Defined.

(** X10. In a well-formed tree [ToChild] lands on a cell of the tree that is
    neither the root nor the cell it left, and two different child numbers
    lead to two different cells. *)
Theorem ToChild_lands_on_cell (tree : vtkHyperTree) (ichild : nat)
    (this child : vtkHyperTreeGridEntry) :
  tree_wf tree → ToChild tree ichild this = Some child →
  is_Some (IsLeaf tree child) ∧
  IsRoot child = false ∧
  Index child ≠ Index this ∧
  ∀ ichild' child', ToChild tree ichild' this = Some child' →
                    Index child' = Index child → ichild' = ichild.
Proof.
  intros Hwf Hto.
  destruct (ToChild_valid _ _ _ _ Hwf Hto) as [Hon Hroot].
  split; [done|]. split; [done|].
  apply ToChild_Some in Hto as (elder & Hc & Hlt & ->). simpl. split.
  - apply CellAt_Some in Hc as [H0 Hc].
    apply tree_wf_alt in Hwf as [_ Hcells].
    destruct (Hcells _ _ Hc) as [Hp _]. lia.
  - intros ichild' child' (elder' & Hc' & _ & ->)%ToChild_Some. simpl.
    rewrite Hc in Hc'. injection Hc' as <-. lia.
Qed.

Lemma ToChild_lands_on_cell_witness :
  is_Some (IsLeaf QuadTwice {| Index := 6 |}) ∧
  IsRoot {| Index := 6 |} = false ∧
  Index {| Index := 6 |} ≠ Index {| Index := 3 |} ∧
  ∀ ichild' child', ToChild QuadTwice ichild' {| Index := 3 |} = Some child' →
                    Index child' = Index {| Index := 6 |} → ichild' = 1%nat.
Proof.
  apply (ToChild_lands_on_cell QuadTwice 1 {| Index := 3 |} {| Index := 6 |}).
  - exact (bool_decide_unpack (tree_wf QuadTwice) I).
  - reflexivity.
Defined.

(** X11. An entry that starts at the root of a new tree and is moved only by
    [ToChild] is on a cell of the tree after any sequence of calls, however
    the tree is subdivided and numbered in between; the tree stays well
    formed and keeps its branching factor. *)
Theorem descent_stays_on_tree (factor : nat)
    (policy : gmap nat Z → nat → nat → Z) (ops : list EntryOp)
    (this : vtkHyperTreeGridEntry) (tree : vtkHyperTree) :
  forallb descends ops = true →
  run_ops ops (vtkHyperTreeGridEntry_default, NewTree factor policy)
    = Some (this, tree) →
  tree_wf tree ∧ is_Some (IsLeaf tree this) ∧ BranchingFactor tree = factor.
Proof.
  assert (Hgen : ∀ ops (s s' : vtkHyperTreeGridEntry * vtkHyperTree),
            forallb descends ops = true → run_ops ops s = Some s' →
            tree_wf s.2 → is_Some (IsLeaf s.2 s.1) →
            tree_wf s'.2 ∧ is_Some (IsLeaf s'.2 s'.1) ∧
            BranchingFactor s'.2 = BranchingFactor s.2).
  { clear. induction ops as [|op ops IH]; intros s s'; simpl.
    - by intros _ [= <-].
    - intros [Hd Hops]%andb_true_iff.
      destruct (run_op op s) as [s1|] eqn:E; simpl; [|done].
      intros Hrun Hwf Hon.
      destruct (run_op_descends _ _ _ Hd E Hwf Hon) as (Hwf1 & Hon1 & Hb1).
      destruct (IH _ _ Hops Hrun Hwf1 Hon1) as (? & ? & Hb).
      split; [done|]. split; [done|]. by rewrite Hb. }
  intros Hops Hrun.
  apply (Hgen _ _ _ Hops Hrun); [apply NewTree_wf | by eexists].
Qed.

Lemma descent_stays_on_tree_witness :
  ∃ this tree,
    run_ops SampleTrace (vtkHyperTreeGridEntry_default, NewTree 4 ContiguousNumbering)
      = Some (this, tree) ∧
    tree_wf tree ∧ is_Some (IsLeaf tree this) ∧ BranchingFactor tree = 4%nat.
Proof.
  eexists _, _. split; [reflexivity|].
  apply (descent_stays_on_tree 4 ContiguousNumbering SampleTrace); reflexivity.
Defined.

(** X12. On a valid tree index [Initialize] with [create] always returns a
    tree; every later [Initialize] at that index, with or without [create],
    returns the same tree and leaves the grid as it is.  A tree created by
    the call consists of a root that is a leaf.  [Initialize] without
    [create] never changes the grid. *)
Theorem Initialize_create_then_find (grid : vtkHyperTreeGrid) (treeIndex : Z)
    (e : vtkHyperTreeGridEntry) :
  ValidTreeIndex grid treeIndex →
  ∃ tree grid1,
    Initialize grid treeIndex true e = (Some tree, {| Index := 0 |}, grid1) ∧
    (∀ create e', Initialize grid1 treeIndex create e'
                  = (Some tree, {| Index := 0 |}, grid1)) ∧
    (HyperTrees grid !! treeIndex = None →
       NumberOfCells tree = 1%nat ∧
       IsLeaf tree {| Index := 0 |} = Some true ∧
       IsTerminalNode tree {| Index := 0 |} = Some false) ∧
    (∀ treeIndex' e', (Initialize grid treeIndex' false e').2 = grid).
Proof.
  intros Hv.
  assert (Hno : ∀ treeIndex' e', (Initialize grid treeIndex' false e').2 = grid).
  { intros treeIndex' e'. unfold Initialize, GetTree.
    case_bool_decide; [|done]. by destruct (HyperTrees grid !! treeIndex'). }
  unfold Initialize at 1. unfold GetTree at 1.
  rewrite bool_decide_eq_true_2 by done.
  destruct (HyperTrees grid !! treeIndex) as [t0|] eqn:E.
  - exists t0, grid. split; [done|]. split; [|split; [done|done]].
    intros create e'. unfold Initialize, GetTree.
    rewrite bool_decide_eq_true_2 by done. by rewrite E.
  - eexists _, _. split; [done|]. split; [|split; [done|done]].
    intros create e'. unfold Initialize, GetTree. simpl.
    rewrite bool_decide_eq_true_2 by done. by rewrite lookup_insert_eq.
Qed.

Lemma Initialize_create_then_find_witness :
  ∃ tree grid1,
    Initialize SampleGrid 0 true {| Index := 3 |}
      = (Some tree, {| Index := 0 |}, grid1) ∧
    (∀ create e', Initialize grid1 0 create e'
                  = (Some tree, {| Index := 0 |}, grid1)).
Proof.
  destruct (Initialize_create_then_find SampleGrid 0 {| Index := 3 |})
    as (tree & grid1 & H1 & H2 & _).
  - unfold ValidTreeIndex. simpl. lia.
  - exists tree, grid1. by split.
Defined.

(** * Global indices: what holds of them *)

Section GlobalIndexLaws.
Implicit Types (t tree : vtkHyperTree) (this e : vtkHyperTreeGridEntry).
Implicit Types (start g : Z).








End GlobalIndexLaws.



